(** * O365/recipient.py: recipients, their collection and the cloud mapping

    A shallow embedding of [Recipient], [Recipients] and
    [HandleRecipientsMixin] of [O365/recipient.py], with the properties of
    the change tracking and of the conversion to and from the wire format. *)

From Stdlib Require Import ZArith String List.
From stdpp Require Import base option list gmap sets strings.

Local Open Scope string_scope.
Local Open Scope list_scope.
#[local] Set Warnings "-register-all".

(** ** Python values *)

(** Objects with identity (the owning resource, a [Recipients] collection)
    live in a store and are named by their location. *)
Abbreviation loc := positive.

(** The record of a [Recipient] instance: [_address], [_name], [_parent] and
    [_field].  The class is generic in the values held, since [__init__]
    stores whatever it is given. *)
Record Recipient_ (V : Type) : Type := mkRecipient {
  _address : V;
  _name : V;
  _parent : option loc;
  _field : option string
}.
Arguments mkRecipient {V} _ _ _ _.
Arguments _address {V} _.
Arguments _name {V} _.
Arguments _parent {V} _.
Arguments _field {V} _.

(** The Python values that reach this module: JSON data from the server
    (None, booleans, integers, strings, lists, dicts with string keys),
    tuples and [Recipient] instances.  None of the operations below mutates
    a [Recipient], so instances are embedded by value. *)
Inductive pyval : Type :=
| VNone
| VBool (b : bool)
| VInt (z : Z)
| VStr (s : string)
| VTuple (l : list pyval)
| VList (l : list pyval)
| VDict (d : gmap string pyval)
| VRecipient (r : Recipient_ pyval).

Definition Recipient : Type := Recipient_ pyval.

(** Induction on values that also descends into the items of a list, the
    recursion scheme of [Recipients.add]. *)
Fixpoint pyval_list_ind (P : pyval -> Prop)
    (Hleaf : forall v, (forall l, v <> VList l) -> P v)
    (Hlist : forall l, Forall P l -> P (VList l))
    (v : pyval) : P v :=
  match v as v0 return P v0 with
  | VList l =>
      Hlist l
        ((fix items (l : list pyval) : Forall P l :=
            match l with
            | [] => @List.Forall_nil _ P
            | x :: l' =>
                @List.Forall_cons _ P x l' (pyval_list_ind P Hleaf Hlist x) (items l')
            end) l)
  | VNone => Hleaf VNone (fun l H => ltac:(discriminate H))
  | VBool b => Hleaf (VBool b) (fun l H => ltac:(discriminate H))
  | VInt z => Hleaf (VInt z) (fun l H => ltac:(discriminate H))
  | VStr s => Hleaf (VStr s) (fun l H => ltac:(discriminate H))
  | VTuple t => Hleaf (VTuple t) (fun l H => ltac:(discriminate H))
  | VDict d => Hleaf (VDict d) (fun l H => ltac:(discriminate H))
  | VRecipient r => Hleaf (VRecipient r) (fun l H => ltac:(discriminate H))
  end.

(** Truth value of a Python value ([bool(v)]): None, False, 0 and the empty
    string, tuple, list and dict are falsy; a [Recipient] is as truthy as
    its address ([Recipient.__bool__]). *)
Fixpoint truthy (v : pyval) : bool :=
  match v with
  | VNone => false
  | VBool b => b
  | VInt z => negb (Z.eqb z 0)
  | VStr s => negb (String.eqb s "")
  | VTuple l => match l with [] => false | _ => true end
  | VList l => match l with [] => false | _ => true end
  | VDict d => negb (Nat.eqb (size d) 0)
  | VRecipient r => truthy (_address r)
  end.

(** [a or b] *)
Definition py_or (a b : pyval) : pyval := if truthy a then a else b.

(** Truth value of a field name, [None] or a string. *)
Definition truthy_field (f : option string) : bool :=
  match f with
  | Some s => negb (String.eqb s "")
  | None => false
  end.

Module RecipientClass.

(** [Recipient.__init__(address, name, parent, field)] *)
Definition __init__ (address name : pyval) (parent : option loc)
    (field : option string) : Recipient :=
  {| _address := py_or address (VStr "");
     _name := py_or name (VStr "");
     _parent := parent;
     _field := field |}.

(** [Recipient.__bool__] *)
Definition __bool__ (r : Recipient) : bool := truthy (_address r).

(** The properties [address] and [name]. *)
Definition address (r : Recipient) : pyval := _address r.
Definition name (r : Recipient) : pyval := _name r.

End RecipientClass.

(** ** The store and the effects *)

(** The state of a [Recipients] instance: [_parent], [_field],
    [_recipients] and [untrack]. *)
Record Recipients : Type := mkRecipients {
  coll_parent : option loc;
  coll_field : option string;
  _recipients : list Recipient;
  untrack : bool
}.

(** [self._recipients = l] and [self.untrack = b] *)
Definition set_recipients (c : Recipients) (l : list Recipient) : Recipients :=
  {| coll_parent := coll_parent c; coll_field := coll_field c;
     _recipients := l; untrack := untrack c |}.

Definition set_untrack (c : Recipients) (b : bool) : Recipients :=
  {| coll_parent := coll_parent c; coll_field := coll_field c;
     _recipients := _recipients c; untrack := b |}.

(** What the store holds at a location: a [Recipients] collection, or any
    other object, of which only the attribute [_track_changes] is ever read:
    a set of field names, or [None] when the attribute is None or missing. *)
Inductive object : Type :=
| Resource (track_changes : option (gset string))
| Collection (c : Recipients).

Abbreviation store := (gmap loc object).

Inductive exn : Type :=
| ValueError (msg : string)
| AttributeError (msg : string)
| TypeError (msg : string).

(** A call returns a value or raises; the store it leaves behind is kept in
    both cases, as an exception does not undo the writes made before it. *)
Inductive outcome (A : Type) : Type :=
| Ret (a : A)
| Raise (e : exn).
Arguments Ret {A} a.
Arguments Raise {A} e.

(** [hash(v)] is defined: not for a list or a dict, nor for a tuple that
    holds one; a [Recipient] has the hash of [object]. *)
Fixpoint hashable (v : pyval) : bool :=
  match v with
  | VList _ | VDict _ => false
  | VTuple l => forallb hashable l
  | _ => true
  end.

(** [v in s] for a set [s] of strings: hashes [v], which only a string can
    then equal. *)
Definition py_in (v : pyval) (s : gset string) : outcome bool :=
  if hashable v then
    match v with
    | VStr a => Ret (bool_decide (a ∈ s))
    | _ => Ret false
    end
  else Raise (TypeError "unhashable type").

Definition M (A : Type) : Type := store -> outcome A * store.

Definition ret {A} (a : A) : M A := fun h => (Ret a, h).
Definition raise {A} (e : exn) : M A := fun h => (Raise e, h).
Definition bind {A B} (c : M A) (k : A -> M B) : M B :=
  fun h =>
    match c h with
    | (Ret a, h') => k a h'
    | (Raise e, h') => (Raise e, h')
    end.

Declare Scope py_scope.
Delimit Scope py_scope with py.
Notation "x <- c ;; k" := (bind c (fun x => k))
  (at level 100, c at next level, right associativity) : py_scope.
Notation "c ;; k" := (bind c (fun _ => k))
  (at level 100, right associativity) : py_scope.
Local Open Scope py_scope.

(** [for x in l: body(x)] *)
Definition for_each {A} (body : A -> M unit) : list A -> M unit :=
  fix loop (l : list A) : M unit :=
    match l with
    | [] => ret tt
    | x :: l' => body x ;; loop l'
    end.

(** Reading and writing the attributes of the collection at [self]; on any
    other object the first attribute read fails. *)
Definition load (self : loc) : M Recipients :=
  fun h =>
    match h !! self with
    | Some (Collection c) => (Ret c, h)
    | _ => (Raise (AttributeError "not a Recipients instance"), h)
    end.

Definition save (self : loc) (c : Recipients) : M unit :=
  fun h => (Ret tt, <[self := Collection c]> h).

(** [getattr(obj, '_track_changes', None)]: a [Recipients] instance answers
    with its bound method, any other object with the attribute's value, and
    None has no attributes. *)
Inductive attr : Type :=
| AttrNone
| AttrSet (s : gset string)
| AttrMethod.

Definition getattr_track_changes (obj : option loc) (h : store) : attr :=
  match obj with
  | None => AttrNone
  | Some p =>
      match h !! p with
      | Some (Resource (Some s)) => AttrSet s
      | Some (Resource None) => AttrNone
      | Some (Collection _) => AttrMethod
      | None => AttrNone
      end
  end.

(** [parent._track_changes.add(field)] *)
Definition track_changes_add (parent : option loc) (field : string) : M unit :=
  fun h =>
    match getattr_track_changes parent h, parent with
    | AttrSet s, Some p => (Ret tt, <[p := Resource (Some ({[ field ]} ∪ s))]> h)
    | AttrMethod, _ =>
        (Raise (AttributeError "'method' object has no attribute 'add'"), h)
    | _, _ =>
        (Raise (AttributeError "'NoneType' object has no attribute 'add'"), h)
    end.

(** The methods of [Recipient] that write: the receiver's record is passed
    and handed back next to the store. *)
Module RecipientObject.

(** [Recipient._track_changes] *)
Definition _track_changes (r : Recipient) : M unit :=
  fun h =>
    match _field r with
    | Some f =>
        if negb (String.eqb f "")
           && match getattr_track_changes (_parent r) h with
              | AttrNone => false
              | _ => true
              end
        then track_changes_add (_parent r) f h
        else (Ret tt, h)
    | None => (Ret tt, h)
    end.

(** The setter of [address]: [self._address = value], then the
    notification. *)
Definition address_setter (value : pyval) (r : Recipient) (h : store)
    : outcome unit * (Recipient * store) :=
  let r' := mkRecipient value (_name r) (_parent r) (_field r) in
  let (o, h') := _track_changes r' h in
  (o, (r', h')).

(** The setter of [name]. *)
Definition name_setter (value : pyval) (r : Recipient) (h : store)
    : outcome unit * (Recipient * store) :=
  let r' := mkRecipient (_address r) value (_parent r) (_field r) in
  let (o, h') := _track_changes r' h in
  (o, (r', h')).

End RecipientObject.

Module RecipientsClass.

(** [Recipients._track_changes] *)
Definition _track_changes (self : loc) : M unit :=
  c <- load self ;;
  fun h =>
    match coll_field c with
    | Some f =>
        if negb (String.eqb f "")
           && match getattr_track_changes (coll_parent c) h with
              | AttrNone => false
              | _ => true
              end
           && negb (untrack c)
        then track_changes_add (coll_parent c) f h
        else (Ret tt, h)
    | None => (Ret tt, h)
    end.

(** [self._recipients.append(r)] *)
Definition append (self : loc) (r : Recipient) : M unit :=
  c <- load self ;;
  save self (set_recipients c (_recipients c ++ [r])).

(** [Recipients.clear] *)
Definition clear (self : loc) : M unit :=
  c <- load self ;;
  save self (set_recipients c []) ;;
  _track_changes self.

Definition shape_message : string :=
  "Recipients must be an address string, a Recipient instance, a (name, address) tuple or a list".

(** [Recipients.add] *)
Fixpoint add (self : loc) (recipients : pyval) {struct recipients} : M unit :=
  if truthy recipients then
    match recipients with
    | VStr _ =>
        c <- load self ;;
        append self
          (RecipientClass.__init__ recipients VNone
             (coll_parent c) (coll_field c))
    | VRecipient r => append self r
    | VTuple t =>
        match t with
        | [name; address] =>
            if truthy address then
              c <- load self ;;
              append self
                (RecipientClass.__init__ address name
                   (coll_parent c) (coll_field c))
            else ret tt
        | [] | [_] =>
            raise (ValueError "not enough values to unpack (expected 2)")
        | _ => raise (ValueError "too many values to unpack (expected 2)")
        end
    | VList l => for_each (add self) l
    | _ => raise (ValueError shape_message)
    end ;;
    _track_changes self
  else ret tt.

(** [Recipients.__init__(recipients, parent, field)]: the new instance takes
    a location that is not in use. *)
Definition __init__ (recipients : pyval) (parent : option loc)
    (field : option string) : M loc :=
  fun h =>
    let self := fresh (dom h) in
    (save self {| coll_parent := parent; coll_field := field;
                  _recipients := []; untrack := true |} ;;
     (if truthy recipients then add self recipients else ret tt) ;;
     c <- load self ;;
     save self (set_untrack c false) ;;
     ret self) h.

(** The argument of [remove]: an address, or a list, a tuple or a set of
    addresses. *)
Inductive addresses : Type :=
| AddrStr (a : string)
| AddrList (l : list string)
| AddrTuple (l : list string)
| AddrSet (s : gset string).

(** The set [remove] searches: [{address}] for a string, [set(address)] for
    a list or a tuple, the argument itself otherwise. *)
Definition removal_set (address : addresses) : gset string :=
  match address with
  | AddrStr a => {[ a ]}
  | AddrList l => list_to_set l
  | AddrTuple l => list_to_set l
  | AddrSet s => s
  end.

(** The loop of [remove]: the recipients whose address is not in [s]. *)
Fixpoint keep_not_in (s : gset string) (l : list Recipient)
    : outcome (list Recipient) :=
  match l with
  | [] => Ret []
  | recipient :: l' =>
      match py_in (RecipientClass.address recipient) s with
      | Raise e => Raise e
      | Ret member =>
          match keep_not_in s l' with
          | Raise e => Raise e
          | Ret kept => Ret (if member then kept else recipient :: kept)
          end
      end
  end.

(** [Recipients.remove] *)
Definition remove (self : loc) (address : addresses) : M unit :=
  c <- load self ;;
  match keep_not_in (removal_set address) (_recipients c) with
  | Raise e => raise e
  | Ret recipients =>
      (if negb (Nat.eqb (length recipients) (length (_recipients c)))
       then _track_changes self else ret tt) ;;
      c' <- load self ;;
      save self (set_recipients c' recipients)
  end.

(** [Recipients.__len__] *)
Definition __len__ (self : loc) : M nat :=
  c <- load self ;; ret (length (_recipients c)).

(** [Recipients.__iter__]: the recipients in the order of the sequence. *)
Definition __iter__ (self : loc) : M (list Recipient) :=
  c <- load self ;; ret (_recipients c).

(** [Recipients.__bool__] *)
Definition __bool__ (self : loc) : M bool :=
  c <- load self ;; ret (negb (Nat.eqb (length (_recipients c)) 0)).

(** The set [{recipient.address for recipient in l}], every address hashed
    as it goes in. *)
Fixpoint address_set (l : list Recipient) : outcome (list pyval) :=
  match l with
  | [] => Ret []
  | recipient :: l' =>
      if hashable (RecipientClass.address recipient) then
        match address_set l' with
        | Raise e => Raise e
        | Ret s => Ret (RecipientClass.address recipient :: s)
        end
      else Raise (TypeError "unhashable type")
  end.

(** [Recipients.__contains__], for an [item] that is a string: of the
    values of the set a string alone can equal it. *)
Definition __contains__ (self : loc) (item : string) : M bool :=
  c <- load self ;;
  match address_set (_recipients c) with
  | Raise e => raise e
  | Ret s =>
      ret (existsb (fun v => match v with
                             | VStr a => String.eqb a item
                             | _ => false
                             end) s)
  end.

(** [Recipients.get_first_recipient_with_address] *)
Definition get_first_recipient_with_address (self : loc)
    : M (option Recipient) :=
  c <- load self ;;
  let recipients_with_address :=
    List.filter (fun recipient => truthy (RecipientClass.address recipient))
      (_recipients c) in
  match recipients_with_address with
  | first :: _ => ret (Some first)
  | [] => ret None
  end.

End RecipientsClass.

(** ** The cloud mapping *)

Module HandleRecipientsMixin.
Section Mixin.

(** [self._cc], the casing of the wire's keys, supplied by the protocol of
    the owning resource. *)
Variable _cc : string -> string.

(** [obj.get(key, default)]: only a dict has the method. *)
Definition py_get (obj : pyval) (key : string) (dflt : pyval)
    : outcome pyval :=
  match obj with
  | VDict d => Ret (default dflt (d !! key))
  | _ => Raise (AttributeError "object has no attribute 'get'")
  end.

Definition isinstance_dict (v : pyval) : bool :=
  match v with VDict _ => true | _ => false end.

(** [HandleRecipientsMixin._recipient_from_cloud] *)
Definition _recipient_from_cloud (self : loc) (recipient : pyval)
    (field : option string) : outcome Recipient :=
  if truthy recipient then
    match py_get recipient (_cc "emailAddress")
            (if isinstance_dict recipient then recipient else VDict ∅) with
    | Raise e => Raise e
    | Ret recipient =>
        match py_get recipient (_cc "address") (VStr "") with
        | Raise e => Raise e
        | Ret address =>
            match py_get recipient (_cc "name") (VStr "") with
            | Raise e => Raise e
            | Ret name =>
                Ret (RecipientClass.__init__ address name (Some self) field)
            end
        end
    end
  else Ret (RecipientClass.__init__ VNone VNone None None).

(** The loop of [_recipients_from_cloud] that fills [recipients_data]. *)
Fixpoint recipients_data (self : loc) (recipients : list pyval)
    (field : option string) : outcome (list pyval) :=
  match recipients with
  | [] => Ret []
  | recipient :: rest =>
      match _recipient_from_cloud self recipient field with
      | Raise e => Raise e
      | Ret r =>
          match recipients_data self rest field with
          | Raise e => Raise e
          | Ret data => Ret (VRecipient r :: data)
          end
      end
  end.

(** [HandleRecipientsMixin._recipients_from_cloud] *)
Definition _recipients_from_cloud (self : loc) (recipients : list pyval)
    (field : option string) : M loc :=
  match recipients_data self recipients field with
  | Raise e => raise e
  | Ret data => RecipientsClass.__init__ (VList data) (Some self) field
  end.

(** [HandleRecipientsMixin._recipient_to_cloud]; the argument is a
    [Recipient] or None, the result a dict or None. *)
Definition _recipient_to_cloud (recipient : option Recipient) : pyval :=
  match recipient with
  | Some r =>
      if RecipientClass.__bool__ r then
        let inner : gmap string pyval :=
          {[ _cc "address" := RecipientClass.address r ]} in
        VDict {[ _cc "emailAddress" :=
                   VDict (if truthy (RecipientClass.name r)
                          then <[ _cc "name" := RecipientClass.name r ]> inner
                          else inner) ]}
      else VNone
  | None => VNone
  end.

End Mixin.
End HandleRecipientsMixin.

(** ** Wire shapes *)

(** The canonical raw item [{emailAddress: {address: a, name: n}}] and the
    same without the name entry, keys cased by [cc]. *)
Definition canonical (cc : string -> string) (a n : pyval) : pyval :=
  VDict {[ cc "emailAddress" :=
             VDict (<[ cc "name" := n ]> {[ cc "address" := a ]}) ]}.

Definition canonical_nameless (cc : string -> string) (a : pyval) : pyval :=
  VDict {[ cc "emailAddress" := VDict {[ cc "address" := a ]} ]}.

(** [_recipient_to_cloud(_recipient_from_cloud(x, field))] *)
Definition roundtrip (cc : string -> string) (self : loc)
    (field : option string) (x : pyval) : outcome pyval :=
  match HandleRecipientsMixin._recipient_from_cloud cc self x field with
  | Ret r => Ret (HandleRecipientsMixin._recipient_to_cloud cc (Some r))
  | Raise e => Raise e
  end.

(** The raw items [_recipient_from_cloud] is written for: a falsy value, or
    a dict whose envelope entry, when there is one, is a dict. *)
Definition hydratable (cc : string -> string) (v : pyval) : bool :=
  negb (truthy v)
  || match v with
     | VDict d =>
         match d !! cc "emailAddress" with
         | Some e => HandleRecipientsMixin.isinstance_dict e
         | None => true
         end
     | _ => false
     end.

(** ** Shapes of input *)

(** The values [Recipients.add] has no branch for: neither a string, nor a
    [Recipient], a tuple or a list. *)
Definition unsupported (v : pyval) : bool :=
  match v with
  | VStr _ | VRecipient _ | VTuple _ | VList _ => false
  | VNone | VBool _ | VInt _ | VDict _ => true
  end.

(** ** Matching by address *)

(** The address of [r] is a string of the set [s]. *)
Definition address_in (s : gset string) (r : Recipient) : bool :=
  match _address r with
  | VStr a => bool_decide (a ∈ s)
  | _ => false
  end.

(** The recipients of [l] that [remove] is to keep. *)
Definition kept_by (s : gset string) (l : list Recipient) : list Recipient :=
  List.filter (fun r => negb (address_in s r)) l.

(** Every address of [l] can be hashed, as every string can. *)
Definition hashable_addresses (l : list Recipient) : bool :=
  forallb (fun r => hashable (_address r)) l.

(** ** Observations on the store *)

(** The recipient sequence of the collection at [self]. *)
Definition recipients_of (h : store) (self : loc) : option (list Recipient) :=
  match h !! self with
  | Some (Collection c) => Some (_recipients c)
  | _ => None
  end.

(** The dirty-field set of the object at [p]. *)
Definition dirty_fields (h : store) (p : loc) : option (gset string) :=
  match h !! p with
  | Some (Resource t) => t
  | _ => None
  end.

(** Dirty tracking is engaged for the collection [c] at [self]: its owner
    [p] exposes the dirty-field set [ds], its field name [f] is set and
    notifications are not suppressed. *)
Record engaged (h : store) (self p : loc) (f : string) (ds : gset string)
    (c : Recipients) : Prop := mkEngaged {
  eng_self : h !! self = Some (Collection c);
  eng_parent : coll_parent c = Some p;
  eng_field : coll_field c = Some f;
  eng_named : String.eqb f "" = false;
  eng_untrack : untrack c = false;
  eng_owner : h !! p = Some (Resource (Some ds))
}.

(** A store with an owning resource at location 1, whose dirty-field set
    is empty, and at location 2 its empty collection for the field [to]. *)
Definition sample_collection : Recipients :=
  {| coll_parent := Some 1%positive; coll_field := Some "to";
     _recipients := []; untrack := false |}.

Definition sample_store : store :=
  <[2%positive := Collection sample_collection]>
    {[ 1%positive := Resource (Some ∅) ]}.

(** A store with the owning resource alone, and the mixed input
    [["a@x.com", ("Bob", "b@x.com"), ("", "")]]. *)
Definition owner_store : store := {[ 1%positive := Resource (Some ∅) ]}.

Definition mixed_input : pyval :=
  VList [VStr "a@x.com"; VTuple [VStr "Bob"; VStr "b@x.com"];
         VTuple [VStr ""; VStr ""]].

(** ** Invariants of add *)

(** What [add] and its loop keep when tracking is engaged: tracking stays
    engaged, the sequence has only grown, and the dirty-field set has gained
    at most [f]. *)
Definition tracked_after (self p : loc) (f : string) (ds : gset string)
    (c : Recipients) (h' : store) : Prop :=
  exists (c' : Recipients) (ds' : gset string),
    engaged h' self p f ds' c'
    /\ (exists more, _recipients c' = _recipients c ++ more)
    /\ (ds' = ds \/ ds' = {[ f ]} ∪ ds).

(** From a store with tracking engaged, [add] keeps [tracked_after], and
    when it returns the dirty-field set has gained [f] exactly if the input
    was truthy. *)
Definition add_tracked (self p : loc) (f : string) (v : pyval) : Prop :=
  forall h ds c, engaged h self p f ds c ->
  exists r h',
    RecipientsClass.add self v h = (r, h')
    /\ tracked_after self p f ds c h'
    /\ (r = Ret tt ->
        exists c', engaged h' self p f
                     (if truthy v then {[ f ]} ∪ ds else ds) c').

(** While [untrack] is set, [add] writes to the collection only, and leaves
    [untrack] set. *)
Definition add_untracked (self : loc) (v : pyval) : Prop :=
  forall (h : store) c,
    h !! self = Some (Collection c) -> untrack c = true ->
    exists r c',
      RecipientsClass.add self v h = (r, <[self := Collection c']> h)
      /\ untrack c' = true.

(** A store whose collection holds Ann and Bob. *)
Definition two_collection : Recipients :=
  {| coll_parent := Some 1%positive; coll_field := Some "to";
     _recipients :=
       [mkRecipient (VStr "a@x.com") (VStr "Ann") (Some 1%positive) (Some "to");
        mkRecipient (VStr "b@x.com") (VStr "Bob") (Some 1%positive) (Some "to")];
     untrack := false |}.

Definition two_store : store :=
  <[2%positive := Collection two_collection]>
    {[ 1%positive := Resource (Some ∅) ]}.

(** ** What add appends *)

(** The recipients a call of [add] appends for [v], in the order met, when
    the collection has the given parent and field. *)
Fixpoint appended (parent : option loc) (field : option string) (v : pyval)
    {struct v} : list Recipient :=
  if truthy v then
    match v with
    | VStr _ => [RecipientClass.__init__ v VNone parent field]
    | VRecipient r => [r]
    | VTuple [name; address] =>
        if truthy address
        then [RecipientClass.__init__ address name parent field]
        else []
    | VList l => flat_map (appended parent field) l
    | _ => []
    end
  else [].

(** The inputs of [add] in which every truthy value, at any depth, is a
    string, a [Recipient], a tuple of two or a list of such. *)
Fixpoint well_shaped (v : pyval) : bool :=
  negb (truthy v)
  || match v with
     | VStr _ | VRecipient _ => true
     | VTuple [_; _] => true
     | VList l => forallb well_shaped l
     | _ => false
     end.

(** The recipient has an address. *)
Definition addressed (r : Recipient) : bool := truthy (_address r).

(** ** The notification as a function on stores *)

(** The notification of the collection [c] cannot raise: it is suppressed,
    there is no field name, or the parent's [_track_changes] is not a bound
    method, as it is when the parent is itself a collection. *)
Definition notifier_safe (c : Recipients) (h : store) : bool :=
  untrack c
  || negb (truthy_field (coll_field c))
  || match getattr_track_changes (coll_parent c) h with
     | AttrMethod => false
     | _ => true
     end.

(** The store after the notification of [c]: the field name joins the
    parent's set when there is one and nothing suppresses it. *)
Definition notified (c : Recipients) (h : store) : store :=
  match coll_field c, coll_parent c,
        getattr_track_changes (coll_parent c) h with
  | Some f, Some p, AttrSet s =>
      if negb (String.eqb f "") && negb (untrack c)
      then <[p := Resource (Some ({[ f ]} ∪ s))]> h
      else h
  | _, _, _ => h
  end.

(** The store after [self._recipients = l]. *)
Definition saved (self : loc) (c : Recipients) (l : list Recipient)
    (h : store) : store :=
  <[self := Collection (set_recipients c l)]> h.

(** The store after appending [more], notified when [b] is set. *)
Definition step (self : loc) (b : bool) (c : Recipients)
    (more : list Recipient) (h : store) : store :=
  if b then notified c (saved self c (_recipients c ++ more) h)
  else saved self c (_recipients c ++ more) h.

(** ** Statements proved by induction on the input of add *)

(** On a well-shaped input [add] returns, and the store is the one after
    appending [appended] and, for a truthy input, notifying. *)
Definition add_meets (self : loc) (v : pyval) : Prop :=
  forall (h : store) c,
    h !! self = Some (Collection c) -> notifier_safe c h = true ->
    well_shaped v = true ->
    RecipientsClass.add self v h
    = (Ret tt,
       step self (truthy v) c (appended (coll_parent c) (coll_field c) v) h).

(** On any other input [add] raises a [ValueError]. *)
Definition add_fails (self : loc) (v : pyval) : Prop :=
  forall (h : store) c,
    h !! self = Some (Collection c) -> notifier_safe c h = true ->
    well_shaped v = false ->
    exists msg h', RecipientsClass.add self v h = (Raise (ValueError msg), h').

(** A store whose collection holds a recipient with a list as address, as
    [add(("Ann", ["a@x.com"]))] leaves it. *)
Definition listed_collection : Recipients :=
  {| coll_parent := Some 1%positive; coll_field := Some "to";
     _recipients :=
       [mkRecipient (VList [VStr "a@x.com"]) (VStr "Ann") (Some 1%positive)
          (Some "to")];
     untrack := false |}.

Definition listed_store : store :=
  <[2%positive := Collection listed_collection]>
    {[ 1%positive := Resource (Some {[ "to" ]}) ]}.

(** A store in which the parent of the collection at 2 is the collection
    at 3. *)
Definition nested_collection : Recipients :=
  {| coll_parent := Some 3%positive; coll_field := Some "to";
     _recipients :=
       [mkRecipient (VStr "a@x.com") (VStr "Ann") (Some 3%positive) (Some "to")];
     untrack := false |}.

Definition nested_store : store :=
  <[2%positive := Collection nested_collection]>
    {[ 3%positive := Collection sample_collection ]}.

(** ** The addresses a removal names *)

(** The string [a] is among the addresses the argument of [remove] names:
    the argument itself when it is a single address, an element of it when
    it is a list, a tuple or a set. *)
Definition mentions (address : RecipientsClass.addresses) (a : string) : bool :=
  match address with
  | RecipientsClass.AddrStr x => String.eqb a x
  | RecipientsClass.AddrList l => existsb (String.eqb a) l
  | RecipientsClass.AddrTuple l => existsb (String.eqb a) l
  | RecipientsClass.AddrSet s => bool_decide (a ∈ s)
  end.

(** The address of [r] is a string the argument names; the name of [r] is
    not looked at. *)
Definition named_by (address : RecipientsClass.addresses) (r : Recipient)
    : bool :=
  match _address r with
  | VStr a => mentions address a
  | _ => false
  end.

(** The addresses the argument names, as a list. *)
Definition members (address : RecipientsClass.addresses) : list string :=
  match address with
  | RecipientsClass.AddrStr x => [x]
  | RecipientsClass.AddrList l => l
  | RecipientsClass.AddrTuple l => l
  | RecipientsClass.AddrSet s => elements s
  end.

(** ** Counting the notifications *)

(** The calls [parent._track_changes.add(field)] that were carried out, in
    order, each with its parent and field: an observer next to the store,
    which the code neither reads nor writes. *)
Abbreviation notify_log := (list (loc * string)).

Definition ML (A : Type) : Type :=
  store * notify_log -> outcome A * (store * notify_log).

Definition retL {A} (a : A) : ML A := fun st => (Ret a, st).
Definition raiseL {A} (e : exn) : ML A := fun st => (Raise e, st).
Definition bindL {A B} (c : ML A) (k : A -> ML B) : ML B :=
  fun st =>
    match c st with
    | (Ret a, st') => k a st'
    | (Raise e, st') => (Raise e, st')
    end.

(** A computation that notifies nobody leaves the log alone. *)
Definition lift {A} (c : M A) : ML A :=
  fun st => let (o, h') := c (fst st) in (o, (h', snd st)).

Definition for_eachL {A} (body : A -> ML unit) : list A -> ML unit :=
  fix loop (l : list A) : ML unit :=
    match l with
    | [] => retL tt
    | x :: l' => bindL (body x) (fun _ => loop l')
    end.

(** [parent._track_changes.add(field)], entered in the log when the call
    is carried out. *)
Definition track_changes_add_logged (parent : option loc) (field : string)
    : ML unit :=
  fun st =>
    match track_changes_add parent field (fst st), parent with
    | (Ret _, h'), Some p => (Ret tt, (h', snd st ++ [(p, field)]))
    | (o, h'), _ => (o, (h', snd st))
    end.

(** [Recipients._track_changes], with the log. *)
Definition _track_changes_logged (self : loc) : ML unit :=
  bindL (lift (load self)) (fun c st =>
    match coll_field c with
    | Some f =>
        if negb (String.eqb f "")
           && match getattr_track_changes (coll_parent c) (fst st) with
              | AttrNone => false
              | _ => true
              end
           && negb (untrack c)
        then track_changes_add_logged (coll_parent c) f st
        else (Ret tt, st)
    | None => (Ret tt, st)
    end).

(** [Recipients.add], with the log. *)
Fixpoint add_logged (self : loc) (recipients : pyval) {struct recipients}
    : ML unit :=
  if truthy recipients then
    bindL
      match recipients with
      | VStr _ =>
          lift (bind (load self) (fun c =>
                  RecipientsClass.append self
                    (RecipientClass.__init__ recipients VNone
                       (coll_parent c) (coll_field c))))
      | VRecipient r => lift (RecipientsClass.append self r)
      | VTuple t =>
          match t with
          | [name; address] =>
              if truthy address then
                lift (bind (load self) (fun c =>
                        RecipientsClass.append self
                          (RecipientClass.__init__ address name
                             (coll_parent c) (coll_field c))))
              else retL tt
          | [] | [_] =>
              raiseL (ValueError "not enough values to unpack (expected 2)")
          | _ => raiseL (ValueError "too many values to unpack (expected 2)")
          end
      | VList l => for_eachL (add_logged self) l
      | _ => raiseL (ValueError RecipientsClass.shape_message)
      end
      (fun _ => _track_changes_logged self)
  else retL tt.

(** The invocations of [add] on a truthy value that a call on [v] makes,
    itself included: one for a truthy value that is not a list, one more than
    those of its items for a non-empty list. *)
Fixpoint calls (v : pyval) : nat :=
  if truthy v then
    match v with
    | VList l => S (list_sum (map calls l))
    | _ => 1
    end
  else 0.

(** With tracking engaged, the logged [add] does to the store what [add]
    does, and enters one notification for each invocation that got to its
    end. *)
Definition add_counted (self p : loc) (f : string) (v : pyval) : Prop :=
  forall h ds c (log : notify_log),
    engaged h self p f ds c ->
    exists k,
      add_logged self v (h, log)
      = (fst (RecipientsClass.add self v h),
         (snd (RecipientsClass.add self v h), log ++ repeat (p, f) k))
      /\ k <= calls v
      /\ (fst (RecipientsClass.add self v h) = Ret tt -> k = calls v).

(** ** Basic facts on the effects *)

Import RecipientsClass.

Lemma load_at (h : store) (self : loc) (c : Recipients) :
  h !! self = Some (Collection c) -> load self h = (Ret c, h).
Proof. intros H. unfold load. now rewrite H. Qed.

Lemma append_at (h : store) (self : loc) (c : Recipients) (r : Recipient) :
  h !! self = Some (Collection c) ->
  append self r h
  = (Ret tt, <[self := Collection (set_recipients c (_recipients c ++ [r]))]> h).
Proof. intros H. unfold append, bind. now rewrite (load_at _ _ _ H). Qed.

Lemma engaged_owner_ne h self p f ds c : engaged h self p f ds c -> p <> self.
Proof. intros [Hs _ _ _ _ Ho] ->. congruence. Qed.

Lemma track_changes_engaged h self p f ds c :
  engaged h self p f ds c ->
  _track_changes self h = (Ret tt, <[p := Resource (Some ({[ f ]} ∪ ds))]> h).
Proof.
  intros [Hs Hp Hf Hn Hu Ho].
  unfold _track_changes, bind. rewrite (load_at _ _ _ Hs), Hf, Hn, Hu, Hp.
  unfold track_changes_add, getattr_track_changes. now rewrite Ho.
Qed.

Lemma track_changes_untracked (h : store) self c :
  h !! self = Some (Collection c) -> untrack c = true ->
  _track_changes self h = (Ret tt, h).
Proof.
  intros Hs Hu. unfold _track_changes, bind. rewrite (load_at _ _ _ Hs), Hu.
  destruct (coll_field c); [|reflexivity].
  now rewrite andb_false_r.
Qed.

(** A notification never writes to the collection itself. *)
Lemma track_changes_self (h : store) self c :
  h !! self = Some (Collection c) ->
  snd (_track_changes self h) !! self = Some (Collection c).
Proof.
  intros Hs. unfold _track_changes, bind. rewrite (load_at _ _ _ Hs).
  destruct (coll_field c) as [f|]; [|exact Hs].
  destruct (_ && _ && _); [|exact Hs].
  unfold track_changes_add, getattr_track_changes.
  destruct (coll_parent c) as [p|]; [|exact Hs].
  destruct (h !! p) as [[[s|]|c0]|] eqn:Hp; simpl; try exact Hs.
  rewrite lookup_insert_ne; [exact Hs|]. intros ->. congruence.
Qed.

Lemma engaged_notified h self p f ds c :
  engaged h self p f ds c ->
  engaged (<[p := Resource (Some ({[ f ]} ∪ ds))]> h) self p f ({[ f ]} ∪ ds) c.
Proof.
  intros E. pose proof (engaged_owner_ne _ _ _ _ _ _ E) as Hne.
  destruct E as [Hs Hp Hf Hn Hu Ho]. split; try assumption.
  - now rewrite lookup_insert_ne.
  - now rewrite lookup_insert_eq.
Qed.

Lemma engaged_saved h self p f ds c l :
  engaged h self p f ds c ->
  engaged (<[self := Collection (set_recipients c l)]> h) self p f ds
          (set_recipients c l).
Proof.
  intros E. pose proof (engaged_owner_ne _ _ _ _ _ _ E) as Hne.
  destruct E as [Hs Hp Hf Hn Hu Ho]. split; try assumption.
  - now rewrite lookup_insert_eq.
  - now rewrite lookup_insert_ne.
Qed.

(** ** Clearing *)

(** C7: with dirty tracking engaged, [clear] empties the recipient sequence
    and adds the field name to the owner's dirty-field set, whatever the
    sequence held before, nothing included. *)
Theorem clear_always_notifies h self p f ds c :
  engaged h self p f ds c ->
  exists h',
    clear self h = (Ret tt, h')
    /\ recipients_of h' self = Some []
    /\ dirty_fields h' p = Some ({[ f ]} ∪ ds)
    /\ f ∈ ({[ f ]} ∪ ds : gset string).
Proof.
  intros E. pose proof (engaged_owner_ne _ _ _ _ _ _ E) as Hne.
  pose proof (engaged_saved _ _ _ _ _ _ [] E) as E'.
  eexists. split; [|split; [|split]].
  - unfold clear, bind. rewrite (load_at _ _ _ (eng_self _ _ _ _ _ _ E)).
    unfold save. rewrite (track_changes_engaged _ _ _ _ _ _ E'). reflexivity.
  - unfold recipients_of.
    rewrite lookup_insert_ne by congruence. now rewrite lookup_insert_eq.
  - unfold dirty_fields. now rewrite lookup_insert_eq.
  - apply elem_of_union_l, elem_of_singleton_2. reflexivity.
Qed.

Lemma clear_always_notifies_witness :
  engaged sample_store 2 1 "to" ∅ sample_collection
  /\ exists h',
       clear 2 sample_store = (Ret tt, h')
       /\ recipients_of h' 2 = Some []
       /\ dirty_fields h' 1 = Some ({[ "to" ]} ∪ ∅)
       /\ "to" ∈ ({[ "to" ]} ∪ ∅ : gset string).
Proof.
  assert (E : engaged sample_store 2 1 "to" ∅ sample_collection)
    by (split; reflexivity).
  split; [exact E|]. exact (clear_always_notifies _ _ _ _ _ _ E).
Defined.

(** ** Falsy input *)

(** The guard [if recipients:] of [add]. *)
Lemma add_falsy_at (h : store) (self : loc) (v : pyval) :
  truthy v = false -> add self v h = (Ret tt, h).
Proof.
  intros H. destruct v; simpl in H |- *; now rewrite ?H.
Qed.

(** C10: [add] of a falsy value (None, the empty string, list, tuple or
    dict, zero, a recipient without address) returns without raising and
    leaves the whole store, the collection and the owner's dirty-field set
    included, as it was. *)
Theorem add_falsy_noop (h : store) (self : loc) (v : pyval) :
  truthy v = false ->
  add self v h = (Ret tt, h)
  /\ recipients_of (snd (add self v h)) self = recipients_of h self
  /\ forall p, dirty_fields (snd (add self v h)) p = dirty_fields h p.
Proof.
  intros H.
  assert (Hadd : add self v h = (Ret tt, h)).
  { destruct v as [| b | z | s | t | l | d | r]; simpl in H |- *.
    - reflexivity.
    - now rewrite H.
    - now rewrite H.
    - now rewrite H.
    - now rewrite H.
    - now rewrite H.
    - now rewrite H.
    - now rewrite H. }
  rewrite Hadd. split; [reflexivity|]. split; [reflexivity|].
  intros p. reflexivity.
Qed.

Lemma add_falsy_noop_witness :
  truthy (VDict ∅) = false
  /\ add 2 (VDict ∅) sample_store = (Ret tt, sample_store).
Proof.
  split; [reflexivity|]. apply add_falsy_noop. reflexivity.
Defined.

(** None, the empty string, list and tuple, and the empty dict are falsy. *)
Lemma falsy_inputs :
  Forall (fun v => truthy v = false)
    [VNone; VStr ""; VList []; VTuple []; VDict ∅].
Proof. repeat constructor. Qed.

(** ** The cloud mapping *)

Import HandleRecipientsMixin.

Lemma truthy_singleton_dict (k : string) (v : pyval) :
  truthy (VDict {[ k := v ]}) = true.
Proof. simpl. now rewrite map_size_singleton. Qed.

(** C5: [_recipient_to_cloud] answers None, never an empty dict, for an
    absent recipient and for one whose address is falsy; otherwise it
    answers [{emailAddress: {address: a.address}}], with the name entry in the
    nested dict exactly when the name is truthy. *)
Theorem to_cloud_shape (cc : string -> string) (a : option Recipient) :
  _recipient_to_cloud cc a <> VDict ∅
  /\ match a with
     | None => _recipient_to_cloud cc a = VNone
     | Some r =>
         if truthy (_address r) then
           _recipient_to_cloud cc a
           = VDict {[ cc "emailAddress" :=
                        VDict (if truthy (_name r)
                               then <[ cc "name" := _name r ]>
                                      {[ cc "address" := _address r ]}
                               else {[ cc "address" := _address r ]}) ]}
         else _recipient_to_cloud cc a = VNone
     end.
Proof.
  destruct a as [r|]; simpl; [|split; [discriminate|reflexivity]].
  unfold RecipientClass.__bool__, RecipientClass.address, RecipientClass.name.
  destruct (truthy (_address r)); split; try reflexivity; discriminate.
Qed.

(** The name key is in the nested dict if and only if the name is truthy,
    when the casing keeps the two keys apart. *)
Lemma to_cloud_name_key (cc : string -> string) (r : Recipient) :
  cc "address" <> cc "name" ->
  truthy (_address r) = true ->
  exists inner : gmap string pyval,
    _recipient_to_cloud cc (Some r) = VDict {[ cc "emailAddress" := VDict inner ]}
    /\ inner !! cc "address" = Some (_address r)
    /\ (is_Some (inner !! cc "name") <-> truthy (_name r) = true).
Proof.
  intros Hne Ha. unfold _recipient_to_cloud, RecipientClass.__bool__,
    RecipientClass.address, RecipientClass.name.
  rewrite Ha. eexists. split; [reflexivity|].
  destruct (truthy (_name r)).
  - rewrite lookup_insert_ne, lookup_singleton_eq, lookup_insert_eq by congruence.
    split; [reflexivity|]. split; [reflexivity|]. intros _. now eexists.
  - rewrite lookup_singleton_eq, lookup_singleton_ne by congruence.
    split; [reflexivity|]. split; [intros [? ?]|]; discriminate.
Qed.

(** The round trip fails on a canonical item whose address is empty:
    [_recipient_to_cloud] answers None for it. *)
Lemma roundtrip_empty_address_counterexample :
  truthy (VStr "Bob") = true
  /\ roundtrip id 1 None (canonical id (VStr "") (VStr "Bob")) = Ret VNone
  /\ Ret VNone <> Ret (canonical id (VStr "") (VStr "Bob")).
Proof. split; [reflexivity|]. split; [reflexivity|discriminate]. Qed.

(** C1 (amended): on the canonical item [{emailAddress: {address: a, name:
    n}}] with a non-empty address and a non-empty name, converting from the
    cloud and back gives the item again; with a non-empty address and no name
    entry it gives the item again, which has no name key. *)
Theorem roundtrip_canonical (cc : string -> string) (self : loc)
    (field : option string) (a n : pyval) :
  truthy a = true ->
  (truthy n = true ->
   roundtrip cc self field (canonical cc a n) = Ret (canonical cc a n))
  /\ roundtrip cc self field (canonical_nameless cc a)
     = Ret (canonical_nameless cc a).
Proof.
  intros Ha. unfold roundtrip, _recipient_from_cloud, canonical,
    canonical_nameless.
  rewrite !truthy_singleton_dict. simpl py_get.
  rewrite !lookup_singleton_eq. simpl.
  unfold RecipientClass.__bool__, RecipientClass.address, RecipientClass.name.
  simpl. unfold py_or.
  destruct (decide (cc "address" = cc "name")) as [Heq|Hne].
  - rewrite <- Heq, !lookup_insert_eq, !lookup_singleton_eq. simpl.
    split.
    + intros Hn. repeat (rewrite ?Ha, ?Hn; simpl).
      now rewrite !insert_singleton_eq.
    + repeat (rewrite ?Ha; simpl). now rewrite insert_singleton_eq.
  - rewrite lookup_insert_ne, lookup_insert_eq, !lookup_singleton_eq,
      lookup_singleton_ne by congruence.
    simpl. split.
    + intros Hn. now repeat (rewrite ?Ha, ?Hn; simpl).
    + now repeat (rewrite ?Ha; simpl).
Qed.

Lemma roundtrip_canonical_witness :
  truthy (VStr "a@x.com") = true
  /\ truthy (VStr "Ann") = true
  /\ roundtrip id 1 (Some "to") (canonical id (VStr "a@x.com") (VStr "Ann"))
     = Ret (canonical id (VStr "a@x.com") (VStr "Ann"))
  /\ roundtrip id 1 (Some "to") (canonical_nameless id (VStr "a@x.com"))
     = Ret (canonical_nameless id (VStr "a@x.com")).
Proof.
  split; [reflexivity|]. split; [reflexivity|].
  destruct (roundtrip_canonical id 1 (Some "to") (VStr "a@x.com") (VStr "Ann")
              eq_refl) as [H1 H2].
  split; [exact (H1 eq_refl)|exact H2].
Defined.




(** Outside these inputs hydration raises. *)
Lemma from_cloud_raises_otherwise (cc : string -> string) (self : loc)
    (field : option string) (v : pyval) :
  hydratable cc v = false ->
  _recipient_from_cloud cc self v field
  = Raise (AttributeError "object has no attribute 'get'").
Proof.
  unfold hydratable, _recipient_from_cloud. intros H.
  destruct (truthy v) eqn:Ht; [|discriminate].
  simpl in H. destruct v as [| | | | | |d|]; try reflexivity.
  simpl. destruct (d !! cc "emailAddress") as [e|]; [|discriminate].
  simpl. destruct e; try reflexivity; discriminate.
Qed.

(** ** Adding *)

Lemma bind_ret_at {A B} (c : M A) (k : A -> M B) (h h' : store) (a : A) :
  c h = (Ret a, h') -> bind c k h = k a h'.
Proof. intros H. unfold bind. now rewrite H. Qed.

Lemma bind_raise_at {A B} (c : M A) (k : A -> M B) (h h' : store) (e : exn) :
  c h = (Raise e, h') -> bind c k h = (Raise e, h').
Proof. intros H. unfold bind. now rewrite H. Qed.

Lemma for_each_app {A} (body : A -> M unit) (l1 l2 : list A) (h : store) :
  for_each body (l1 ++ l2) h
  = bind (for_each body l1) (fun _ => for_each body l2) h.
Proof.
  revert h. induction l1 as [|x l1 IH]; intros h; [reflexivity|].
  simpl. unfold bind in IH |- *.
  destruct (body x h) as [[[]|e] h1]; [apply IH|reflexivity].
Qed.

(** The three shapes that append, on a store that holds the collection. *)
Lemma add_str_at (h : store) self c s :
  h !! self = Some (Collection c) -> truthy (VStr s) = true ->
  add self (VStr s) h
  = _track_changes self
      (<[self := Collection
                   (set_recipients c
                      (_recipients c
                       ++ [mkRecipient (VStr s) (VStr "")
                             (coll_parent c) (coll_field c)]))]> h).
Proof.
  intros Hs Ht. simpl in Ht |- *. rewrite Ht. unfold bind at 1 2.
  rewrite (load_at _ _ _ Hs), (append_at _ _ _ _ Hs).
  unfold RecipientClass.__init__, py_or. simpl. now rewrite Ht.
Qed.

Lemma add_pair_at (h : store) self c n a :
  h !! self = Some (Collection c) -> truthy a = true ->
  add self (VTuple [n; a]) h
  = _track_changes self
      (<[self := Collection
                   (set_recipients c
                      (_recipients c
                       ++ [mkRecipient a (py_or n (VStr ""))
                             (coll_parent c) (coll_field c)]))]> h).
Proof.
  intros Hs Ht. simpl. rewrite Ht. unfold bind at 1 2.
  rewrite (load_at _ _ _ Hs), (append_at _ _ _ _ Hs).
  unfold RecipientClass.__init__, py_or at 1. now rewrite Ht.
Qed.

Lemma add_recipient_at (h : store) self c (r : Recipient) :
  h !! self = Some (Collection c) -> truthy (_address r) = true ->
  add self (VRecipient r) h
  = _track_changes self
      (<[self := Collection (set_recipients c (_recipients c ++ [r]))]> h).
Proof.
  intros Hs Ht. simpl. rewrite Ht. unfold bind at 1.
  now rewrite (append_at _ _ _ _ Hs).
Qed.

Lemma recipients_after_notify (h : store) self c :
  h !! self = Some (Collection c) ->
  recipients_of (snd (_track_changes self h)) self = Some (_recipients c).
Proof.
  intros Hs. unfold recipients_of. now rewrite (track_changes_self _ _ _ Hs).
Qed.

(** The recipient [add] builds from a string reports to the owner of the
    collection, at location 1, not to the collection at location 2. *)
Lemma add_owner_counterexample :
  exists r : Recipient,
    recipients_of (snd (add 2 (VStr "a@x.com") sample_store)) 2 = Some [r]
    /\ _parent r = Some 1%positive
    /\ _parent r <> Some 2%positive.
Proof.
  eexists. split; [vm_compute; reflexivity|].
  split; [reflexivity|discriminate].
Qed.

(** C9 (amended): the recipient that [add] builds from an address string or
    from a (name, address) pair takes the parent and the field of the
    collection, that is, it reports to the collection's own owner; a
    [Recipient] given ready-made is appended as it is, with the references it
    came with. *)
Theorem add_back_reference (h : store) (self : loc) (c : Recipients) :
  h !! self = Some (Collection c) ->
  (forall s, truthy (VStr s) = true ->
     recipients_of (snd (add self (VStr s) h)) self
     = Some (_recipients c
             ++ [mkRecipient (VStr s) (VStr "") (coll_parent c) (coll_field c)]))
  /\ (forall n a, truthy a = true ->
        recipients_of (snd (add self (VTuple [n; a]) h)) self
        = Some (_recipients c
                ++ [mkRecipient a (py_or n (VStr ""))
                      (coll_parent c) (coll_field c)]))
  /\ (forall r : Recipient, truthy (_address r) = true ->
        recipients_of (snd (add self (VRecipient r) h)) self
        = Some (_recipients c ++ [r])).
Proof.
  intros Hs. split; [|split].
  - intros s Ht. rewrite (add_str_at _ _ _ _ Hs Ht).
    now erewrite recipients_after_notify
      by (rewrite lookup_insert_eq; reflexivity).
  - intros n a Ht. rewrite (add_pair_at _ _ _ _ _ Hs Ht).
    now erewrite recipients_after_notify
      by (rewrite lookup_insert_eq; reflexivity).
  - intros r Ht. rewrite (add_recipient_at _ _ _ _ Hs Ht).
    now erewrite recipients_after_notify
      by (rewrite lookup_insert_eq; reflexivity).
Qed.

Lemma add_back_reference_witness :
  sample_store !! 2%positive = Some (Collection sample_collection)
  /\ truthy (VStr "b@x.com") = true
  /\ recipients_of
       (snd (add 2 (VTuple [VStr "Bob"; VStr "b@x.com"]) sample_store)) 2
     = Some [mkRecipient (VStr "b@x.com") (VStr "Bob") (Some 1%positive)
               (Some "to")].
Proof.
  assert (Hs : sample_store !! 2%positive = Some (Collection sample_collection))
    by reflexivity.
  split; [exact Hs|]. split; [reflexivity|].
  apply (proj1 (proj2 (add_back_reference _ _ _ Hs)) (VStr "Bob")
           (VStr "b@x.com")).
  reflexivity.
Defined.

(** ** Unsupported shapes *)




(** ** Notifications of add *)

Lemma union_singleton_twice (f : string) (ds : gset string) :
  {[ f ]} ∪ ({[ f ]} ∪ ds) = {[ f ]} ∪ ds.
Proof. now rewrite (assoc_L (∪)), (idemp_L (∪)). Qed.

Section Tracked.

Variables (self p : loc) (f : string).

Local Abbreviation tracked_after := (tracked_after self p f).
Local Abbreviation add_tracked := (add_tracked self p f).

Lemma tracked_after_refl h ds c :
  engaged h self p f ds c -> tracked_after ds c h.
Proof.
  intros E. exists c, ds. split; [exact E|].
  split; [exists []; now rewrite app_nil_r|now left].
Qed.

Lemma tracked_after_trans h1 h2 ds ds1 c c1 :
  engaged h1 self p f ds1 c1 ->
  (exists more, _recipients c1 = _recipients c ++ more) ->
  ds1 = ds \/ ds1 = {[ f ]} ∪ ds ->
  tracked_after ds1 c1 h2 -> tracked_after ds c h2.
Proof.
  intros _ [m1 Hm1] Hd1 (c2 & ds2 & E2 & [m2 Hm2] & Hd2).
  exists c2, ds2. split; [exact E2|]. split.
  - exists (m1 ++ m2). now rewrite Hm2, Hm1, app_assoc.
  - destruct Hd1 as [->| ->], Hd2 as [->| ->]; auto.
    right. apply union_singleton_twice.
Qed.

(** An append followed by the notification. *)
Lemma append_then_notify h ds c r :
  engaged h self p f ds c ->
  exists h',
    _track_changes self
      (<[self := Collection (set_recipients c (_recipients c ++ [r]))]> h)
    = (Ret tt, h')
    /\ engaged h' self p f ({[ f ]} ∪ ds)
         (set_recipients c (_recipients c ++ [r])).
Proof.
  intros E. pose proof (engaged_saved _ _ _ _ _ _ (_recipients c ++ [r]) E) as E1.
  eexists. split; [apply (track_changes_engaged _ _ _ _ _ _ E1)|].
  now apply engaged_notified.
Qed.

Lemma add_tracked_leaf (v : pyval) :
  (forall l, v <> VList l) -> add_tracked v.
Proof.
  intros Hnl h ds c E.
  destruct (truthy v) eqn:Ht.
  2:{ exists (Ret tt), h. rewrite (add_falsy_at _ _ _ Ht).
      split; [reflexivity|]. split; [now apply tracked_after_refl|].
      intros _. now exists c. }
  assert (Happ : forall r,
    add self v h
    = _track_changes self
        (<[self := Collection (set_recipients c (_recipients c ++ [r]))]> h) ->
    exists r0 h', add self v h = (r0, h') /\ tracked_after ds c h'
      /\ (r0 = Ret tt -> exists c', engaged h' self p f ({[ f ]} ∪ ds) c')).
  { intros r Hadd. destruct (append_then_notify h ds c r E) as (h' & Hn & E').
    exists (Ret tt), h'. split; [now rewrite Hadd|]. split.
    - eexists _, _. split; [exact E'|]. split; [now exists [r]|now right].
    - intros _. eauto. }
  assert (Hraise : forall e,
    add self v h = (Raise e, h) ->
    exists r0 h', add self v h = (r0, h') /\ tracked_after ds c h'
      /\ (r0 = Ret tt -> exists c', engaged h' self p f ({[ f ]} ∪ ds) c')).
  { intros e Hadd. exists (Raise e), h. split; [exact Hadd|].
    split; [now apply tracked_after_refl|discriminate]. }
  pose proof (eng_self _ _ _ _ _ _ E) as Hs.
  destruct v as [| b | z | s | t | l | d | r].
  - discriminate.
  - apply (Hraise (ValueError shape_message)). simpl in Ht |- *. now rewrite Ht.
  - apply (Hraise (ValueError shape_message)). simpl in Ht |- *. now rewrite Ht.
  - eapply Happ. now apply add_str_at.
  - destruct t as [|n [|a [|x t]]]; try discriminate.
    + eapply Hraise. reflexivity.
    + destruct (truthy a) eqn:Ha.
      * eapply Happ. now apply add_pair_at.
      * exists (Ret tt), (<[p := Resource (Some ({[ f ]} ∪ ds))]> h).
        simpl. rewrite Ha.
        rewrite (bind_ret_at _ _ h h tt eq_refl).
        split; [apply (track_changes_engaged _ _ _ _ _ _ E)|].
        pose proof (engaged_notified _ _ _ _ _ _ E) as E'. split.
        -- exists c, ({[ f ]} ∪ ds). split; [exact E'|].
           split; [exists []; now rewrite app_nil_r|now right].
        -- intros _. now exists c.
    + eapply Hraise. reflexivity.
  - now destruct (Hnl l).
  - apply (Hraise (ValueError shape_message)). simpl in Ht |- *. now rewrite Ht.
  - eapply Happ. now apply add_recipient_at.
Qed.

Lemma for_each_tracked (l : list pyval) :
  Forall add_tracked l ->
  forall h ds c, engaged h self p f ds c ->
  exists r h', for_each (add self) l h = (r, h') /\ tracked_after ds c h'.
Proof.
  induction 1 as [|x l Hx _ IH]; intros h ds c E.
  - exists (Ret tt), h. split; [reflexivity|now apply tracked_after_refl].
  - destruct (Hx h ds c E) as (r1 & h1 & Hadd & T1 & _).
    destruct r1 as [[]|e].
    + destruct T1 as (c1 & ds1 & E1 & Hm1 & Hd1).
      destruct (IH h1 ds1 c1 E1) as (r2 & h2 & Hloop & T2).
      exists r2, h2. simpl. rewrite (bind_ret_at _ _ _ _ _ Hadd).
      split; [exact Hloop|]. exact (tracked_after_trans _ _ _ _ _ _ E1 Hm1 Hd1 T2).
    + exists (Raise e), h1. simpl. rewrite (bind_raise_at _ _ _ _ _ Hadd).
      split; [reflexivity|exact T1].
Qed.

Lemma add_tracked_list (l : list pyval) :
  Forall add_tracked l -> add_tracked (VList l).
Proof.
  intros Hl h ds c E. destruct l as [|x l].
  { exists (Ret tt), h. split; [reflexivity|].
    split; [now apply tracked_after_refl|]. intros _. now exists c. }
  destruct (for_each_tracked _ Hl h ds c E) as (r1 & h1 & Hloop & T1).
  change (add self (VList (x :: l)) h)
    with ((for_each (add self) (x :: l) ;; _track_changes self) h).
  destruct r1 as [[]|e].
  - destruct T1 as (c1 & ds1 & E1 & Hm1 & Hd1).
    exists (Ret tt), (<[p := Resource (Some ({[ f ]} ∪ ds1))]> h1).
    rewrite (bind_ret_at _ _ _ _ _ Hloop).
    split; [apply (track_changes_engaged _ _ _ _ _ _ E1)|].
    pose proof (engaged_notified _ _ _ _ _ _ E1) as E2.
    assert (Hds : {[ f ]} ∪ ds1 = {[ f ]} ∪ ds).
    { destruct Hd1 as [->| ->]; [reflexivity|apply union_singleton_twice]. }
    rewrite Hds in E2 |- *. split.
    + exists c1, ({[ f ]} ∪ ds). split; [exact E2|]. split; [exact Hm1|now right].
    + intros _. now exists c1.
  - exists (Raise e), h1. rewrite (bind_raise_at _ _ _ _ _ Hloop).
    split; [reflexivity|]. split; [exact T1|discriminate].
Qed.

Lemma add_tracked_all (v : pyval) : add_tracked v.
Proof.
  induction v using pyval_list_ind;
    [now apply add_tracked_leaf|now apply add_tracked_list].
Qed.

End Tracked.

(** ** Counting the notifications of add *)

Lemma lift_at {A} (c : M A) (h h' : store) (log : notify_log) (o : outcome A) :
  c h = (o, h') -> lift c (h, log) = (o, (h', log)).
Proof. intros H. unfold lift. simpl. now rewrite H. Qed.

Lemma bindL_ret_at {A B} (c : ML A) (k : A -> ML B)
    (st st' : store * notify_log) (a : A) :
  c st = (Ret a, st') -> bindL c k st = k a st'.
Proof. intros H. unfold bindL. now rewrite H. Qed.

Lemma bindL_raise_at {A B} (c : ML A) (k : A -> ML B)
    (st st' : store * notify_log) (e : exn) :
  c st = (Raise e, st') -> bindL c k st = (Raise e, st').
Proof. intros H. unfold bindL. now rewrite H. Qed.

Lemma calls_falsy (v : pyval) : truthy v = false -> calls v = 0.
Proof. intros H. destruct v; simpl in H |- *; now rewrite ?H. Qed.

Lemma calls_not_list (v : pyval) : (forall l, v <> VList l) -> calls v <= 1.
Proof.
  intros Hnl. destruct v as [| b | z | s | t | l | d | r]; simpl;
    try (destruct (truthy _); lia); try lia.
  - destruct b; lia.
  - destruct (negb _); lia.
  - destruct (negb _); lia.
  - destruct t; lia.
  - now destruct (Hnl l).
  - destruct (negb _); lia.
Qed.

(** A list of [n] non-empty address strings makes [n + 1] invocations. *)
Lemma calls_address_list (l : list string) :
  l <> [] -> forallb (fun a => negb (String.eqb a "")) l = true ->
  calls (VList (map VStr l)) = S (length l).
Proof.
  intros Hne Hall.
  assert (Hsum : list_sum (map calls (map VStr l)) = length l).
  { induction l as [|a l IH]; [reflexivity|].
    simpl in Hall. apply andb_prop in Hall as [Ha Hl].
    change (list_sum (map calls (map VStr (a :: l))))
      with (calls (VStr a) + list_sum (map calls (map VStr l))).
    destruct l as [|b l'].
    - simpl. rewrite Ha. reflexivity.
    - rewrite (IH ltac:(discriminate) Hl). simpl calls. rewrite Ha. reflexivity. }
  destruct l as [|a l]; [now destruct Hne|].
  change (calls (VList (map VStr (a :: l))))
    with (S (list_sum (map calls (map VStr (a :: l))))).
  now rewrite Hsum.
Qed.

Section Counted.

Variables (self p : loc) (f : string).

Local Abbreviation add_counted := (add_counted self p f).

Lemma track_changes_logged_engaged h ds c (log : notify_log) :
  engaged h self p f ds c ->
  _track_changes_logged self (h, log)
  = (Ret tt, (<[p := Resource (Some ({[ f ]} ∪ ds))]> h, log ++ [(p, f)])).
Proof.
  intros [Hs Hp Hf Hn Hu Ho].
  unfold _track_changes_logged.
  rewrite (bindL_ret_at _ _ _ _ _ (lift_at _ _ _ log _ (load_at _ _ _ Hs))).
  cbn [fst snd]. rewrite Hf, Hn, Hu, Hp.
  unfold track_changes_add_logged, track_changes_add, getattr_track_changes.
  cbn [fst snd]. now rewrite Ho.
Qed.

(** A body that appends one recipient, followed by the notification. *)
Lemma counted_append (body : M unit) h ds c (log : notify_log) (r : Recipient) :
  engaged h self p f ds c ->
  body h
  = (Ret tt, <[self := Collection (set_recipients c (_recipients c ++ [r]))]> h) ->
  bindL (lift body) (fun _ => _track_changes_logged self) (h, log)
  = (Ret tt,
     (<[p := Resource (Some ({[ f ]} ∪ ds))]>
        (<[self := Collection (set_recipients c (_recipients c ++ [r]))]> h),
      log ++ [(p, f)]))
  /\ bind body (fun _ => _track_changes self) h
     = (Ret tt,
        <[p := Resource (Some ({[ f ]} ∪ ds))]>
          (<[self := Collection (set_recipients c (_recipients c ++ [r]))]> h)).
Proof.
  intros E Hbody.
  pose proof (engaged_saved _ _ _ _ _ _ (_recipients c ++ [r]) E) as E1.
  split.
  - rewrite (bindL_ret_at _ _ _ _ _ (lift_at _ _ _ log _ Hbody)).
    apply (track_changes_logged_engaged _ _ _ _ E1).
  - rewrite (bind_ret_at _ _ _ _ _ Hbody).
    apply (track_changes_engaged _ _ _ _ _ _ E1).
Qed.

Lemma add_counted_leaf (v : pyval) : (forall l, v <> VList l) -> add_counted v.
Proof.
  intros Hnl h ds c log E. pose proof (eng_self _ _ _ _ _ _ E) as Hs.
  destruct (truthy v) eqn:Ht.
  2:{ exists 0. rewrite (add_falsy_at _ _ _ Ht), (calls_falsy _ Ht).
      cbn [fst snd repeat]. rewrite app_nil_r.
      split; [|split; [lia|reflexivity]].
      destruct v; simpl in Ht |- *; now rewrite ?Ht. }
  assert (Happ : forall (body : M unit) r,
    body h
    = (Ret tt, <[self := Collection (set_recipients c (_recipients c ++ [r]))]> h) ->
    add_logged self v (h, log)
    = bindL (lift body) (fun _ => _track_changes_logged self) (h, log) ->
    add self v h = bind body (fun _ => _track_changes self) h ->
    calls v = 1 ->
    exists k,
      add_logged self v (h, log)
      = (fst (add self v h), (snd (add self v h), log ++ repeat (p, f) k))
      /\ k <= calls v /\ (fst (add self v h) = Ret tt -> k = calls v)).
  { intros body r Hbody HL HA Hc.
    destruct (counted_append body h ds c log r E Hbody) as [HL' HA'].
    exists 1. rewrite HL, HA, HL', HA', Hc. now repeat split. }
  assert (Hraise : forall e,
    add_logged self v (h, log) = (Raise e, (h, log)) ->
    add self v h = (Raise e, h) ->
    exists k,
      add_logged self v (h, log)
      = (fst (add self v h), (snd (add self v h), log ++ repeat (p, f) k))
      /\ k <= calls v /\ (fst (add self v h) = Ret tt -> k = calls v)).
  { intros e HL HA. exists 0. rewrite HL, HA. cbn [fst snd repeat].
    rewrite app_nil_r. split; [reflexivity|]. split; [lia|discriminate]. }
  destruct v as [| b | z | s | t | l | d | r].
  - discriminate.
  - simpl in Ht. subst b. now apply (Hraise (ValueError shape_message)).
  - apply (Hraise (ValueError shape_message)); simpl in Ht |- *; now rewrite Ht.
  - apply (Happ (bind (load self) (fun c0 =>
                   append self
                     (RecipientClass.__init__ (VStr s) VNone
                        (coll_parent c0) (coll_field c0))))
             (mkRecipient (VStr s) (VStr "") (coll_parent c) (coll_field c))).
    + rewrite (bind_ret_at _ _ _ _ _ (load_at _ _ _ Hs)).
      rewrite (append_at _ _ _ _ Hs).
      unfold RecipientClass.__init__, py_or. simpl. simpl in Ht. now rewrite Ht.
    + simpl. simpl in Ht. now rewrite Ht.
    + simpl. simpl in Ht. now rewrite Ht.
    + simpl. simpl in Ht. now rewrite Ht.
  - destruct t as [|n [|a [|x t]]]; try discriminate.
    + now apply (Hraise (ValueError "not enough values to unpack (expected 2)")).
    + destruct (truthy a) eqn:Ha.
      * apply (Happ (bind (load self) (fun c0 =>
                       append self
                         (RecipientClass.__init__ a n
                            (coll_parent c0) (coll_field c0))))
                 (mkRecipient a (py_or n (VStr "")) (coll_parent c)
                    (coll_field c))).
        -- rewrite (bind_ret_at _ _ _ _ _ (load_at _ _ _ Hs)).
           rewrite (append_at _ _ _ _ Hs).
           unfold RecipientClass.__init__.
           assert (Hor : py_or a (VStr "") = a)
             by (unfold py_or; now rewrite Ha).
           now rewrite Hor.
        -- simpl. now rewrite Ha.
        -- simpl. now rewrite Ha.
        -- reflexivity.
      * exists 1. simpl add_logged. simpl add. rewrite Ha.
        rewrite (bindL_ret_at (retL tt) _ (h, log) (h, log) tt eq_refl).
        rewrite (bind_ret_at (ret tt) _ h h tt eq_refl).
        rewrite (track_changes_logged_engaged _ _ _ _ E).
        rewrite (track_changes_engaged _ _ _ _ _ _ E).
        now repeat split.
    + now apply (Hraise (ValueError "too many values to unpack (expected 2)")).
  - now destruct (Hnl l).
  - apply (Hraise (ValueError shape_message)); simpl in Ht |- *; now rewrite Ht.
  - apply (Happ (append self r) r).
    + apply (append_at _ _ _ _ Hs).
    + simpl. simpl in Ht. now rewrite Ht.
    + simpl. simpl in Ht. now rewrite Ht.
    + simpl. simpl in Ht. now rewrite Ht.
Qed.

Lemma for_each_counted (l : list pyval) :
  Forall add_counted l ->
  forall h ds c (log : notify_log),
    engaged h self p f ds c ->
    exists k,
      for_eachL (add_logged self) l (h, log)
      = (fst (for_each (add self) l h),
         (snd (for_each (add self) l h), log ++ repeat (p, f) k))
      /\ k <= list_sum (map calls l)
      /\ (fst (for_each (add self) l h) = Ret tt -> k = list_sum (map calls l)).
Proof.
  induction 1 as [|x l Hx _ IH]; intros h ds c log E.
  - exists 0. cbn [repeat]. rewrite app_nil_r. now repeat split.
  - destruct (Hx h ds c log E) as (k1 & HL & Hle & Heq).
    destruct (add_tracked_all self p f x h ds c E) as (r & h1 & Hadd & T & _).
    rewrite Hadd in HL, Heq. cbn [fst snd] in HL, Heq.
    cbn [for_eachL for_each map].
    change (list_sum (calls x :: map calls l))
      with (calls x + list_sum (map calls l)).
    destruct r as [[]|e].
    + destruct T as (c1 & ds1 & E1 & _ & _).
      destruct (IH h1 ds1 c1 (log ++ repeat (p, f) k1) E1) as (k2 & HL2 & Hle2 & Heq2).
      exists (k1 + k2).
      rewrite (bindL_ret_at _ _ _ _ _ HL), (bind_ret_at _ _ _ _ _ Hadd).
      rewrite HL2, repeat_app, app_assoc.
      split; [reflexivity|]. split; [lia|].
      intros Hret. pose proof (Heq eq_refl). pose proof (Heq2 Hret). lia.
    + exists k1.
      rewrite (bindL_raise_at _ _ _ _ _ HL), (bind_raise_at _ _ _ _ _ Hadd).
      split; [reflexivity|]. split; [lia|discriminate].
Qed.

Lemma add_counted_list (l : list pyval) :
  Forall add_counted l -> add_counted (VList l).
Proof.
  intros Hl h ds c log E. destruct l as [|x l].
  { exists 0. cbn [repeat]. rewrite app_nil_r. now repeat split. }
  destruct (for_each_counted _ Hl h ds c log E) as (k1 & HL & Hle & Heq).
  destruct (for_each_tracked self p f (x :: l)
              (Forall_true _ _ (add_tracked_all self p f)) h ds c E)
    as (r & h1 & Hloop & T).
  rewrite Hloop in HL, Heq. cbn [fst snd] in HL, Heq.
  change (add_logged self (VList (x :: l)))
    with (bindL (for_eachL (add_logged self) (x :: l))
            (fun _ => _track_changes_logged self)).
  change (add self (VList (x :: l)) h)
    with ((for_each (add self) (x :: l) ;; _track_changes self) h).
  change (calls (VList (x :: l))) with (S (list_sum (map calls (x :: l)))).
  destruct r as [[]|e].
  - destruct T as (c1 & ds1 & E1 & _ & _).
    exists (k1 + 1).
    rewrite (bindL_ret_at _ _ _ _ _ HL), (bind_ret_at _ _ _ _ _ Hloop).
    rewrite (track_changes_logged_engaged _ _ _ _ E1).
    rewrite (track_changes_engaged _ _ _ _ _ _ E1).
    cbn [fst snd]. rewrite repeat_app, app_assoc.
    split; [reflexivity|]. split; [lia|].
    intros _. rewrite (Heq eq_refl). lia.
  - exists k1.
    rewrite (bindL_raise_at _ _ _ _ _ HL), (bind_raise_at _ _ _ _ _ Hloop).
    split; [reflexivity|]. split; [lia|discriminate].
Qed.

Lemma add_counted_all (v : pyval) : add_counted v.
Proof.
  induction v using pyval_list_ind;
    [now apply add_counted_leaf|now apply add_counted_list].
Qed.

End Counted.




(** ** Construction *)

Section Untracked.

Variable self : loc.

Local Abbreviation add_untracked := (add_untracked self).

Lemma add_untracked_leaf (v : pyval) :
  (forall l, v <> VList l) -> add_untracked v.
Proof.
  intros Hnl h c Hs Hu.
  assert (Hsame : forall r, add self v h = (r, h) ->
    exists r0 c', add self v h = (r0, <[self := Collection c']> h)
                  /\ untrack c' = true).
  { intros r Hadd. exists r, c. now rewrite (insert_id _ _ _ Hs). }
  assert (Happ : forall r,
    add self v h
    = _track_changes self
        (<[self := Collection (set_recipients c (_recipients c ++ [r]))]> h) ->
    exists r0 c', add self v h = (r0, <[self := Collection c']> h)
                  /\ untrack c' = true).
  { intros r Hadd. exists (Ret tt), (set_recipients c (_recipients c ++ [r])).
    split; [|exact Hu]. rewrite Hadd.
    apply (track_changes_untracked _ _ (set_recipients c (_recipients c ++ [r])));
      [now rewrite lookup_insert_eq|exact Hu]. }
  destruct (truthy v) eqn:Ht.
  2:{ apply (Hsame (Ret tt)). now apply add_falsy_at. }
  destruct v as [| b | z | s | t | l | d | r].
  - discriminate.
  - eapply Hsame. simpl in Ht |- *. now rewrite Ht.
  - eapply Hsame. simpl in Ht |- *. now rewrite Ht.
  - eapply Happ. now apply add_str_at.
  - destruct t as [|n [|a [|x t]]]; try discriminate.
    + eapply Hsame. reflexivity.
    + destruct (truthy a) eqn:Ha.
      * eapply Happ. now apply add_pair_at.
      * eapply Hsame. simpl. rewrite Ha.
        rewrite (bind_ret_at _ _ h h tt eq_refl).
        now apply (track_changes_untracked _ _ c).
    + eapply Hsame. reflexivity.
  - now destruct (Hnl l).
  - eapply Hsame. simpl in Ht |- *. now rewrite Ht.
  - eapply Happ. now apply add_recipient_at.
Qed.

Lemma for_each_untracked (l : list pyval) :
  Forall add_untracked l ->
  forall (h : store) c,
    h !! self = Some (Collection c) -> untrack c = true ->
    exists r c',
      for_each (add self) l h = (r, <[self := Collection c']> h)
      /\ untrack c' = true.
Proof.
  induction 1 as [|x l Hx _ IH]; intros h c Hs Hu.
  - exists (Ret tt), c. now rewrite (insert_id _ _ _ Hs).
  - destruct (Hx h c Hs Hu) as (r1 & c1 & Hadd & Hu1).
    destruct r1 as [[]|e].
    + destruct (IH (<[self := Collection c1]> h) c1) as (r2 & c2 & Hloop & Hu2);
        [now rewrite lookup_insert_eq|exact Hu1|].
      exists r2, c2. simpl. rewrite (bind_ret_at _ _ _ _ _ Hadd), Hloop.
      now rewrite insert_insert_eq.
    + exists (Raise e), c1. simpl. now rewrite (bind_raise_at _ _ _ _ _ Hadd).
Qed.

Lemma add_untracked_list (l : list pyval) :
  Forall add_untracked l -> add_untracked (VList l).
Proof.
  intros Hl h c Hs Hu. destruct l as [|x l].
  { exists (Ret tt), c. now rewrite (insert_id _ _ _ Hs). }
  destruct (for_each_untracked _ Hl h c Hs Hu) as (r1 & c1 & Hloop & Hu1).
  change (add self (VList (x :: l)) h)
    with ((for_each (add self) (x :: l) ;; _track_changes self) h).
  exists r1, c1. split; [|exact Hu1]. destruct r1 as [[]|e].
  - rewrite (bind_ret_at _ _ _ _ _ Hloop).
    apply (track_changes_untracked _ _ c1); [now rewrite lookup_insert_eq|exact Hu1].
  - now rewrite (bind_raise_at _ _ _ _ _ Hloop).
Qed.

Lemma add_untracked_all (v : pyval) : add_untracked v.
Proof.
  induction v using pyval_list_ind;
    [now apply add_untracked_leaf|now apply add_untracked_list].
Qed.

End Untracked.

(** The constructor writes to the new location only. *)
Lemma init_writes_new_only (recipients : pyval) (parent : option loc)
    (field : option string) (h : store) :
  delete (fresh (dom h)) (snd (__init__ recipients parent field h)) = h.
Proof.
  set (self := fresh (dom h)).
  assert (Hfresh : h !! self = None) by apply not_elem_of_dom, is_fresh.
  set (c0 := {| coll_parent := parent; coll_field := field;
                _recipients := []; untrack := true |}).
  assert (Hadd : exists r c',
    (if truthy recipients then add self recipients else ret tt)
      (<[self := Collection c0]> h)
    = (r, <[self := Collection c']> h)).
  { destruct (truthy recipients).
    - destruct (add_untracked_all self recipients (<[self := Collection c0]> h) c0)
        as (r & c' & Hadd & _); [now rewrite lookup_insert_eq|reflexivity|].
      exists r, c'. now rewrite Hadd, insert_insert_eq.
    - exists (Ret tt), c0. reflexivity. }
  destruct Hadd as (r & c' & Hadd).
  unfold __init__. fold self. fold c0.
  rewrite (bind_ret_at (save self c0) _ h _ tt eq_refl).
  destruct r as [[]|e].
  - rewrite (bind_ret_at _ _ _ _ _ Hadd).
    rewrite (bind_ret_at _ _ _ _ c' (load_at _ _ _ (lookup_insert_eq _ _ _))).
    unfold save, bind, ret. simpl.
    now rewrite insert_insert_eq, delete_insert_eq, delete_id.
  - rewrite (bind_raise_at _ _ _ _ _ Hadd). simpl.
    now rewrite delete_insert_eq, delete_id.
Qed.

(** C8: constructing a collection, from any input and also by the bulk
    hydration [_recipients_from_cloud], changes nothing in the store but the
    location of the new collection, so no dirty-field set gains a name; and
    from the mixed list [["a@x.com", ("Bob", "b@x.com"), ("", "")]] it builds
    the two recipients in that order, the pair without address dropped, and
    leaves the owner's dirty-field set as it was. *)
Theorem construction_never_notifies (cc : string -> string)
    (recipients : pyval) (raw : list pyval) (parent : option loc)
    (owner : loc) (field : option string) (h : store) :
  delete (fresh (dom h)) (snd (__init__ recipients parent field h)) = h
  /\ delete (fresh (dom h)) (snd (_recipients_from_cloud cc owner raw field h))
     = h
  /\ exists h',
       __init__ mixed_input (Some 1%positive) (Some "to") owner_store
       = (Ret 2%positive, h')
       /\ recipients_of h' 2
          = Some [mkRecipient (VStr "a@x.com") (VStr "") (Some 1%positive)
                    (Some "to");
                  mkRecipient (VStr "b@x.com") (VStr "Bob") (Some 1%positive)
                    (Some "to")]
       /\ __len__ 2 h' = (Ret 2, h')
       /\ dirty_fields h' 1 = dirty_fields owner_store 1.
Proof.
  split; [apply init_writes_new_only|]. split.
  - unfold _recipients_from_cloud.
    destruct (recipients_data cc owner raw field) as [data|e].
    + apply init_writes_new_only.
    + simpl. apply delete_id, not_elem_of_dom, is_fresh.
  - eexists. split; [vm_compute; reflexivity|].
    repeat split; vm_compute; reflexivity.
Qed.

(** ** Removing *)

Lemma py_in_address_in (s : gset string) (r : Recipient) :
  hashable (_address r) = true ->
  py_in (RecipientClass.address r) s = Ret (address_in s r).
Proof.
  unfold py_in, address_in, RecipientClass.address. intros ->.
  now destruct (_address r).
Qed.

Lemma keep_not_in_kept_by (s : gset string) (l : list Recipient) :
  hashable_addresses l = true -> keep_not_in s l = Ret (kept_by s l).
Proof.
  induction l as [|r l IH]; [reflexivity|]. simpl.
  intros [Hr Hl]%andb_prop. rewrite (py_in_address_in _ _ Hr), (IH Hl).
  now destruct (address_in s r).
Qed.

Lemma kept_by_idemp (s : gset string) (l : list Recipient) :
  kept_by s (kept_by s l) = kept_by s l.
Proof. unfold kept_by. apply forallb_filter_id, forallb_filter. Qed.

Lemma hashable_addresses_kept_by (s : gset string) (l : list Recipient) :
  hashable_addresses l = true -> hashable_addresses (kept_by s l) = true.
Proof.
  induction l as [|r l IH]; [reflexivity|]. simpl.
  intros [Hr Hl]%andb_prop. destruct (address_in s r); simpl; [auto|].
  now rewrite Hr, (IH Hl).
Qed.

Lemma set_recipients_same (c : Recipients) :
  set_recipients c (_recipients c) = c.
Proof. now destruct c. Qed.

(** [remove] when nothing matches: the store is left as it was. *)
Lemma remove_nothing h self p f ds c (address : addresses) :
  engaged h self p f ds c ->
  hashable_addresses (_recipients c) = true ->
  kept_by (removal_set address) (_recipients c) = _recipients c ->
  remove self address h = (Ret tt, h).
Proof.
  intros E Hh Hk. pose proof (eng_self _ _ _ _ _ _ E) as Hs.
  unfold remove. rewrite (bind_ret_at _ _ _ _ _ (load_at _ _ _ Hs)).
  rewrite (keep_not_in_kept_by _ _ Hh), Hk, Nat.eqb_refl. simpl.
  rewrite (bind_ret_at (ret tt) _ h h tt eq_refl).
  rewrite (bind_ret_at _ _ _ _ _ (load_at _ _ _ Hs)).
  unfold save. now rewrite set_recipients_same, (insert_id _ _ _ Hs).
Qed.

(** [remove] when something matches: the notification, then the new
    sequence. *)
Lemma remove_something h self p f ds c (address : addresses) :
  engaged h self p f ds c ->
  hashable_addresses (_recipients c) = true ->
  length (kept_by (removal_set address) (_recipients c))
  <> length (_recipients c) ->
  remove self address h
  = (Ret tt,
     <[self := Collection
                 (set_recipients c (kept_by (removal_set address) (_recipients c)))]>
       (<[p := Resource (Some ({[ f ]} ∪ ds))]> h)).
Proof.
  intros E Hh Hk. pose proof (eng_self _ _ _ _ _ _ E) as Hs.
  pose proof (engaged_notified _ _ _ _ _ _ E) as E'.
  unfold remove. rewrite (bind_ret_at _ _ _ _ _ (load_at _ _ _ Hs)).
  rewrite (keep_not_in_kept_by _ _ Hh).
  apply Nat.eqb_neq in Hk. rewrite Hk. simpl.
  rewrite (bind_ret_at _ _ _ _ _ (track_changes_engaged _ _ _ _ _ _ E)).
  now rewrite (bind_ret_at _ _ _ _ _ (load_at _ _ _ (eng_self _ _ _ _ _ _ E'))).
Qed.

(** What [remove] searches is what its argument names. *)
Lemma mentions_removal_set (address : addresses) (a : string) :
  bool_decide (a ∈ removal_set address) = mentions address a.
Proof.
  assert (Hlist : forall l : list string,
            bool_decide (a ∈ (list_to_set l : gset string))
            = existsb (String.eqb a) l).
  { intros l. apply eq_true_iff_eq.
    rewrite bool_decide_eq_true, elem_of_list_to_set, existsb_exists.
    split.
    - intros Hin. exists a. split; [now apply list_elem_of_In|].
      apply String.eqb_refl.
    - intros (x & Hin & Hx). apply String.eqb_eq in Hx. subst x.
      now apply list_elem_of_In. }
  destruct address as [x|l|l|s]; simpl; try apply Hlist; try reflexivity.
  apply eq_true_iff_eq.
  rewrite bool_decide_eq_true, elem_of_singleton. symmetry. apply String.eqb_eq.
Qed.

Lemma address_in_named_by (address : addresses) (r : Recipient) :
  address_in (removal_set address) r = named_by address r.
Proof.
  unfold address_in, named_by. destruct (_address r); try reflexivity.
  apply mentions_removal_set.
Qed.

Lemma kept_by_named (address : addresses) (l : list Recipient) :
  kept_by (removal_set address) l
  = List.filter (fun r => negb (named_by address r)) l.
Proof.
  unfold kept_by. apply filter_ext. intros r. now rewrite address_in_named_by.
Qed.

(** C6: with dirty tracking engaged, on a collection of addresses that can be
    hashed (strings, as the data model has them), [remove] keeps exactly the
    recipients whose address is not one the argument names (the address
    itself, or an element of the list, tuple or set), whatever their names;
    the owner's dirty-field set gains the field name if and only if the
    length changed; and a second [remove] of the same addresses leaves the
    store as it is. *)
Theorem remove_by_address h self p f ds c (address : addresses) :
  engaged h self p f ds c ->
  hashable_addresses (_recipients c) = true ->
  exists h',
    remove self address h = (Ret tt, h')
    /\ recipients_of h' self
       = Some (List.filter (fun r => negb (named_by address r)) (_recipients c))
    /\ dirty_fields h' p
       = Some (if Nat.eqb
                    (length (List.filter (fun r => negb (named_by address r))
                               (_recipients c)))
                    (length (_recipients c))
               then ds else {[ f ]} ∪ ds)
    /\ remove self address h' = (Ret tt, h').
Proof.
  intros E Hh. rewrite <- (kept_by_named address).
  set (kept := kept_by (removal_set address) (_recipients c)).
  assert (Hagain : forall h' ds',
    engaged h' self p f ds' (set_recipients c kept) ->
    remove self address h' = (Ret tt, h')).
  { intros h' ds' E'. apply (remove_nothing _ _ _ _ _ _ _ E').
    - now apply hashable_addresses_kept_by.
    - apply kept_by_idemp. }
  destruct (Nat.eqb (length kept) (length (_recipients c))) eqn:Hlen.
  - assert (Hk : kept = _recipients c).
    { apply forallb_filter_id, filter_length_forallb. now apply Nat.eqb_eq. }
    exists h. rewrite (remove_nothing _ _ _ _ _ _ _ E Hh Hk).
    split; [reflexivity|]. split; [|split; [|reflexivity]].
    + unfold recipients_of. now rewrite (eng_self _ _ _ _ _ _ E), Hk.
    + unfold dirty_fields. now rewrite (eng_owner _ _ _ _ _ _ E).
  - apply Nat.eqb_neq in Hlen.
    pose proof (engaged_saved _ _ _ _ _ _ kept
                  (engaged_notified _ _ _ _ _ _ E)) as E'.
    exists (<[self := Collection (set_recipients c kept)]>
              (<[p := Resource (Some ({[ f ]} ∪ ds))]> h)).
    split; [apply (remove_something _ _ _ _ _ _ _ E Hh Hlen)|].
    split; [|split].
    + unfold recipients_of. now rewrite (eng_self _ _ _ _ _ _ E').
    + unfold dirty_fields. now rewrite (eng_owner _ _ _ _ _ _ E').
    + exact (Hagain _ _ E').
Qed.

(** Matching looks at the address alone. *)
Lemma address_in_ignores_name (s : gset string) (r r' : Recipient) :
  _address r = _address r' -> address_in s r = address_in s r'.
Proof. unfold address_in. now intros ->. Qed.

Lemma remove_by_address_witness :
  engaged two_store 2 1 "to" ∅ two_collection
  /\ hashable_addresses (_recipients two_collection) = true
  /\ (exists h',
        remove 2 (AddrList ["a@x.com"; "c@x.com"]) two_store = (Ret tt, h')
        /\ recipients_of h' 2
           = Some [mkRecipient (VStr "b@x.com") (VStr "Bob") (Some 1%positive)
                     (Some "to")]
        /\ dirty_fields h' 1 = Some ({[ "to" ]} ∪ ∅)
        /\ remove 2 (AddrList ["a@x.com"; "c@x.com"]) h' = (Ret tt, h'))
  /\ (exists h',
        remove 2 (AddrStr "a@x.com") two_store = (Ret tt, h')
        /\ recipients_of h' 2
           = Some [mkRecipient (VStr "b@x.com") (VStr "Bob") (Some 1%positive)
                     (Some "to")])
  /\ (exists h',
        remove 2 (AddrTuple ["b@x.com"]) two_store = (Ret tt, h')
        /\ recipients_of h' 2
           = Some [mkRecipient (VStr "a@x.com") (VStr "Ann") (Some 1%positive)
                     (Some "to")])
  /\ (exists h',
        remove 2 (AddrSet {[ "a@x.com"; "b@x.com" ]}) two_store = (Ret tt, h')
        /\ recipients_of h' 2 = Some []).
Proof.
  assert (E : engaged two_store 2 1 "to" ∅ two_collection)
    by (split; reflexivity).
  assert (Hh : hashable_addresses (_recipients two_collection) = true)
    by reflexivity.
  split; [exact E|]. split; [exact Hh|]. split; [|split; [|split]].
  - destruct (remove_by_address _ _ _ _ _ _ (AddrList ["a@x.com"; "c@x.com"])
                E Hh) as (h' & H1 & H2 & H3 & H4).
    exists h'. split; [exact H1|]. split; [exact H2|].
    split; [exact H3|exact H4].
  - destruct (remove_by_address _ _ _ _ _ _ (AddrStr "a@x.com") E Hh)
      as (h' & H1 & H2 & _).
    exists h'. split; [exact H1|exact H2].
  - destruct (remove_by_address _ _ _ _ _ _ (AddrTuple ["b@x.com"]) E Hh)
      as (h' & H1 & H2 & _).
    exists h'. split; [exact H1|exact H2].
  - destruct (remove_by_address _ _ _ _ _ _
                (AddrSet {[ "a@x.com"; "b@x.com" ]}) E Hh)
      as (h' & H1 & H2 & _).
    exists h'. split; [exact H1|]. rewrite H2. vm_compute. reflexivity.
Defined.

(** ** The notification as a store function *)

Section Notified.

Variable self : loc.

Lemma track_changes_safe (h : store) c :
  h !! self = Some (Collection c) -> notifier_safe c h = true ->
  _track_changes self h = (Ret tt, notified c h).
Proof.
  intros Hs Hsafe. unfold _track_changes, bind. rewrite (load_at _ _ _ Hs).
  unfold notifier_safe, truthy_field in Hsafe. unfold notified.
  destruct (coll_field c) as [f|]; [|reflexivity].
  unfold track_changes_add.
  destruct (getattr_track_changes (coll_parent c) h) as [|s|] eqn:Hg.
  - rewrite andb_false_r. simpl. now destruct (coll_parent c).
  - destruct (coll_parent c) as [p|]; [|discriminate Hg].
    rewrite andb_true_r.
    now destruct (negb (String.eqb f "") && negb (untrack c)).
  - rewrite andb_true_r. destruct (untrack c); simpl in Hsafe |- *.
    + rewrite andb_false_r. now destruct (coll_parent c).
    + destruct (String.eqb f ""); [|discriminate Hsafe].
      simpl. now destruct (coll_parent c).
Qed.

Lemma getattr_saved (h : store) (q : option loc) c0 c1 :
  h !! self = Some (Collection c0) ->
  getattr_track_changes q (<[self := Collection c1]> h)
  = getattr_track_changes q h.
Proof.
  intros Hs. destruct q as [p|]; [|reflexivity]. simpl.
  destruct (decide (p = self)) as [->|Hne].
  - now rewrite lookup_insert_eq, Hs.
  - now rewrite lookup_insert_ne.
Qed.

Lemma notified_lookup_self (h : store) c c0 :
  h !! self = Some (Collection c0) ->
  notified c h !! self = Some (Collection c0).
Proof.
  intros Hs. unfold notified.
  destruct (coll_field c) as [f|]; [|exact Hs].
  destruct (coll_parent c) as [p|]; [|exact Hs].
  destruct (getattr_track_changes (Some p) h) as [|s|] eqn:Hg; try exact Hs.
  destruct (_ && _); [|exact Hs].
  rewrite lookup_insert_ne; [exact Hs|]. intros ->.
  simpl in Hg. now rewrite Hs in Hg.
Qed.

Lemma getattr_notified (h : store) c (q : option loc) :
  match getattr_track_changes q (notified c h), getattr_track_changes q h with
  | AttrMethod, AttrMethod | AttrNone, AttrNone | AttrSet _, AttrSet _ => True
  | _, _ => False
  end.
Proof.
  unfold notified.
  assert (Hsame : match getattr_track_changes q h, getattr_track_changes q h with
                  | AttrMethod, AttrMethod | AttrNone, AttrNone
                  | AttrSet _, AttrSet _ => True
                  | _, _ => False
                  end) by now destruct (getattr_track_changes q h).
  destruct (coll_field c) as [f|]; [|exact Hsame].
  destruct (coll_parent c) as [p|]; [|exact Hsame].
  destruct (getattr_track_changes (Some p) h) as [|s|] eqn:Hg; try exact Hsame.
  destruct (_ && _); [|exact Hsame].
  destruct q as [p'|]; [|exact I]. simpl in Hg |- *.
  destruct (decide (p' = p)) as [->|Hne].
  - rewrite lookup_insert_eq.
    now destruct (h !! p) as [[[s'|]|c']|].
  - rewrite lookup_insert_ne by congruence.
    now destruct (h !! p') as [[[s'|]|c']|].
Qed.

Lemma notifier_safe_saved (h : store) c c0 c1 :
  h !! self = Some (Collection c0) ->
  notifier_safe c (<[self := Collection c1]> h) = notifier_safe c h.
Proof.
  intros Hs. unfold notifier_safe. now rewrite (getattr_saved _ _ _ _ Hs).
Qed.

Lemma notifier_safe_notified (h : store) c :
  notifier_safe c (notified c h) = notifier_safe c h.
Proof.
  unfold notifier_safe. pose proof (getattr_notified h c (coll_parent c)) as H.
  destruct (getattr_track_changes (coll_parent c) (notified c h)),
    (getattr_track_changes (coll_parent c) h); now try destruct H.
Qed.

Lemma notified_idem (h : store) c : notified c (notified c h) = notified c h.
Proof.
  unfold notified.
  destruct (coll_field c) as [f|]; [|reflexivity].
  destruct (coll_parent c) as [p|]; [|reflexivity].
  destruct (negb (String.eqb f "") && negb (untrack c)) eqn:Hb.
  2:{ destruct (getattr_track_changes (Some p) h) eqn:Hg; now rewrite ?Hg. }
  simpl. destruct (h !! p) as [[[s|]|c']|] eqn:Hl; rewrite ?Hl; try reflexivity.
  rewrite lookup_insert_eq, insert_insert_eq. now rewrite union_singleton_twice.
Qed.

Lemma notified_saved (h : store) c c0 c1 :
  h !! self = Some (Collection c0) ->
  notified c (<[self := Collection c1]> h)
  = <[self := Collection c1]> (notified c h).
Proof.
  intros Hs. unfold notified. rewrite (getattr_saved _ _ _ _ Hs).
  destruct (coll_field c) as [f|]; [|reflexivity].
  destruct (coll_parent c) as [p|]; [|reflexivity].
  destruct (getattr_track_changes (Some p) h) as [|s|] eqn:Hg; try reflexivity.
  destruct (_ && _); [|reflexivity].
  apply insert_insert_ne. intros ->. simpl in Hg. now rewrite Hs in Hg.
Qed.

(** Two rounds of appending make one. *)
Lemma step_step (h : store) c (b1 b2 : bool) (m1 m2 : list Recipient) :
  h !! self = Some (Collection c) ->
  step self b2 (set_recipients c (_recipients c ++ m1)) m2 (step self b1 c m1 h)
  = step self (b1 || b2) c (m1 ++ m2) h.
Proof.
  intros Hs. unfold step, saved. simpl _recipients.
  change (notified (set_recipients c (_recipients c ++ m1)))
    with (notified c).
  change (set_recipients (set_recipients c (_recipients c ++ m1))
            ((_recipients c ++ m1) ++ m2))
    with (set_recipients c ((_recipients c ++ m1) ++ m2)).
  rewrite <- app_assoc.
  assert (Hs1 : <[self := Collection (set_recipients c (_recipients c ++ m1))]> h
                !! self
                = Some (Collection (set_recipients c (_recipients c ++ m1))))
    by apply lookup_insert_eq.
  destruct b1, b2; simpl.
  - rewrite (notified_saved _ c _ _ (notified_lookup_self _ c _ Hs1)).
    rewrite notified_idem, <- (notified_saved _ c _ _ Hs1).
    now rewrite insert_insert_eq.
  - rewrite <- (notified_saved _ c _ _ Hs1). now rewrite insert_insert_eq.
  - now rewrite insert_insert_eq.
  - now rewrite insert_insert_eq.
Qed.

Lemma step_lookup_self (h : store) c b more :
  step self b c more h !! self
  = Some (Collection (set_recipients c (_recipients c ++ more))).
Proof.
  unfold step, saved. destruct b.
  - apply notified_lookup_self, lookup_insert_eq.
  - apply lookup_insert_eq.
Qed.

Lemma step_safe (h : store) c b more :
  h !! self = Some (Collection c) ->
  notifier_safe (set_recipients c (_recipients c ++ more)) (step self b c more h)
  = notifier_safe c h.
Proof.
  intros Hs.
  change (notifier_safe (set_recipients c (_recipients c ++ more)))
    with (notifier_safe c).
  unfold step, saved. destruct b.
  - now rewrite notifier_safe_notified, (notifier_safe_saved _ _ _ _ Hs).
  - now rewrite (notifier_safe_saved _ _ _ _ Hs).
Qed.

Lemma step_nothing (h : store) c :
  h !! self = Some (Collection c) -> step self false c [] h = h.
Proof.
  intros Hs. unfold step, saved.
  now rewrite app_nil_r, set_recipients_same, (insert_id _ _ _ Hs).
Qed.

End Notified.

(** ** What add does, as a function of its input *)

Lemma appended_falsy (parent : option loc) (field : option string) (v : pyval) :
  truthy v = false -> appended parent field v = [].
Proof. intros H. destruct v; simpl in H |- *; now rewrite ?H. Qed.

Lemma well_shaped_truthy (v : pyval) : well_shaped v = false -> truthy v = true.
Proof.
  intros H. destruct (truthy v) eqn:E; [reflexivity|].
  destruct v; simpl in E, H; rewrite ?E in H; discriminate.
Qed.

Section AddMeets.

Variable self : loc.

Local Abbreviation add_meets := (add_meets self).
Local Abbreviation add_fails := (add_fails self).

Lemma notify_after_save (h : store) c (l : list Recipient) :
  h !! self = Some (Collection c) -> notifier_safe c h = true ->
  _track_changes self (<[self := Collection (set_recipients c l)]> h)
  = (Ret tt, notified c (saved self c l h)).
Proof.
  intros Hs Hsafe. unfold saved.
  apply (track_changes_safe self _ (set_recipients c l)).
  - apply lookup_insert_eq.
  - change (notifier_safe (set_recipients c l)) with (notifier_safe c).
    now rewrite (notifier_safe_saved _ _ _ _ _ Hs).
Qed.

Lemma notify_without_save (h : store) c :
  h !! self = Some (Collection c) -> notifier_safe c h = true ->
  _track_changes self h = (Ret tt, step self true c [] h).
Proof.
  intros Hs Hsafe. rewrite (track_changes_safe _ _ _ Hs Hsafe).
  unfold step, saved.
  now rewrite app_nil_r, set_recipients_same, (insert_id _ _ _ Hs).
Qed.

Lemma add_meets_leaf (v : pyval) : (forall l, v <> VList l) -> add_meets v.
Proof.
  intros Hnl h c Hs Hsafe Hw.
  destruct (truthy v) eqn:Ht.
  2:{ rewrite (add_falsy_at _ _ _ Ht), (appended_falsy _ _ _ Ht).
      now rewrite (step_nothing _ _ _ Hs). }
  destruct v as [| b | z | s | t | l | d | r]; simpl in Ht, Hw;
    rewrite ?Ht in Hw; try discriminate.
  - rewrite (add_str_at _ _ _ _ Hs Ht).
    rewrite (notify_after_save _ _ _ Hs Hsafe). unfold step.
    unfold appended, RecipientClass.__init__, py_or. simpl.
    now rewrite !Ht.
  - destruct t as [|n [|a [|x t]]]; try discriminate.
    simpl appended. destruct (truthy a) eqn:Ha.
    + rewrite (add_pair_at _ _ _ _ _ Hs Ha).
      rewrite (notify_after_save _ _ _ Hs Hsafe). unfold step.
      unfold RecipientClass.__init__.
      assert (Hor : py_or a (VStr "") = a) by (unfold py_or; now rewrite Ha).
      now rewrite Hor.
    + simpl. rewrite Ha. rewrite (bind_ret_at (ret tt) _ h h tt eq_refl).
      now apply notify_without_save.
  - now destruct (Hnl l).
  - rewrite (add_recipient_at _ _ _ _ Hs Ht).
    rewrite (notify_after_save _ _ _ Hs Hsafe). unfold step.
    simpl appended. simpl in Ht. now rewrite Ht.
Qed.

Lemma for_each_meets (l : list pyval) :
  Forall add_meets l ->
  forall (h : store) c,
    h !! self = Some (Collection c) -> notifier_safe c h = true ->
    forallb well_shaped l = true ->
    for_each (add self) l h
    = (Ret tt,
       step self (existsb truthy l) c
         (flat_map (appended (coll_parent c) (coll_field c)) l) h).
Proof.
  induction 1 as [|x l Hx _ IH]; intros h c Hs Hsafe Hw.
  - change ((Ret tt, h) = (Ret tt, step self false c [] h)).
    now rewrite (step_nothing _ _ _ Hs).
  - simpl in Hw. apply andb_prop in Hw as [Hwx Hwl].
    simpl. rewrite (bind_ret_at _ _ _ _ _ (Hx h c Hs Hsafe Hwx)).
    rewrite (IH _ _ (step_lookup_self _ _ _ _ _)).
    + apply f_equal. apply (step_step _ _ _ _ _ _ _ Hs).
    + now rewrite (step_safe _ _ _ _ _ Hs).
    + exact Hwl.
Qed.

Lemma add_meets_list (l : list pyval) : Forall add_meets l -> add_meets (VList l).
Proof.
  intros Hl h c Hs Hsafe Hw. destruct l as [|x l].
  { change ((Ret tt, h) = (Ret tt, step self false c [] h)).
    now rewrite (step_nothing _ _ _ Hs). }
  change (well_shaped (VList (x :: l))) with (forallb well_shaped (x :: l)) in Hw.
  change (add self (VList (x :: l)) h)
    with ((for_each (add self) (x :: l) ;; _track_changes self) h).
  rewrite (bind_ret_at _ _ _ _ _ (for_each_meets _ Hl h c Hs Hsafe Hw)).
  rewrite (notify_without_save _ _ (step_lookup_self _ _ _ _ _)).
  - rewrite (step_step _ _ _ _ _ _ _ Hs), app_nil_r, orb_true_r. reflexivity.
  - now rewrite (step_safe _ _ _ _ _ Hs).
Qed.

Lemma add_meets_all (v : pyval) : add_meets v.
Proof.
  induction v using pyval_list_ind;
    [now apply add_meets_leaf|now apply add_meets_list].
Qed.

Lemma add_fails_leaf (v : pyval) : (forall l, v <> VList l) -> add_fails v.
Proof.
  intros Hnl h c Hs Hsafe Hw.
  pose proof (well_shaped_truthy _ Hw) as Ht.
  destruct v as [| b | z | s | t | l | d | r]; simpl in Ht, Hw;
    rewrite ?Ht in Hw; try discriminate.
  - eexists _, _. simpl in Ht |- *. now rewrite Ht.
  - eexists _, _. simpl in Ht |- *. now rewrite Ht.
  - destruct t as [|n [|a [|x t]]]; try discriminate;
      eexists _, _; reflexivity.
  - now destruct (Hnl l).
  - eexists _, _. simpl in Ht |- *. now rewrite Ht.
Qed.

Lemma for_each_fails (l : list pyval) :
  Forall add_fails l ->
  forall (h : store) c,
    h !! self = Some (Collection c) -> notifier_safe c h = true ->
    forallb well_shaped l = false ->
    exists msg h', for_each (add self) l h = (Raise (ValueError msg), h').
Proof.
  induction 1 as [|x l Hx _ IH]; intros h c Hs Hsafe Hw; [discriminate|].
  simpl in Hw. destruct (well_shaped x) eqn:Hwx.
  - simpl. rewrite (bind_ret_at _ _ _ _ _ (add_meets_all x h c Hs Hsafe Hwx)).
    apply (IH _ _ (step_lookup_self _ _ _ _ _)); [|exact Hw].
    now rewrite (step_safe _ _ _ _ _ Hs).
  - destruct (Hx h c Hs Hsafe Hwx) as (msg & h' & Hadd).
    exists msg, h'. simpl. now rewrite (bind_raise_at _ _ _ _ _ Hadd).
Qed.

Lemma add_fails_list (l : list pyval) : Forall add_fails l -> add_fails (VList l).
Proof.
  intros Hl h c Hs Hsafe Hw. destruct l as [|x l]; [discriminate|].
  change (well_shaped (VList (x :: l))) with (forallb well_shaped (x :: l)) in Hw.
  destruct (for_each_fails _ Hl h c Hs Hsafe Hw) as (msg & h' & Hloop).
  exists msg, h'.
  change (add self (VList (x :: l)) h)
    with ((for_each (add self) (x :: l) ;; _track_changes self) h).
  now rewrite (bind_raise_at _ _ _ _ _ Hloop).
Qed.

Lemma add_fails_all (v : pyval) : add_fails v.
Proof.
  induction v using pyval_list_ind;
    [now apply add_fails_leaf|now apply add_fails_list].
Qed.

End AddMeets.

(** X1: on a well-shaped input, when the notification cannot raise, [add]
    returns; the collection gains the recipients of [appended], in the order
    the input lists them, the notification takes effect if and only if the
    input is truthy, and nothing else in the store changes. *)
Theorem add_appends_in_order (h : store) (self : loc) (c : Recipients)
    (v : pyval) :
  h !! self = Some (Collection c) ->
  notifier_safe c h = true ->
  well_shaped v = true ->
  add self v h
  = (Ret tt,
     if truthy v
     then notified c
            (saved self c
               (_recipients c ++ appended (coll_parent c) (coll_field c) v) h)
     else h).
Proof.
  intros Hs Hsafe Hw. rewrite (add_meets_all self v h c Hs Hsafe Hw).
  unfold step. destruct (truthy v) eqn:Ht; [reflexivity|].
  rewrite (appended_falsy _ _ _ Ht). apply f_equal.
  unfold saved. now rewrite app_nil_r, set_recipients_same, (insert_id _ _ _ Hs).
Qed.

Lemma add_appends_in_order_witness :
  sample_store !! 2%positive = Some (Collection sample_collection)
  /\ notifier_safe sample_collection sample_store = true
  /\ well_shaped (VList [VList [VStr "a@x.com"]; VNone;
                         VTuple [VStr "Bob"; VStr "b@x.com"]]) = true
  /\ recipients_of
       (snd (add 2 (VList [VList [VStr "a@x.com"]; VNone;
                           VTuple [VStr "Bob"; VStr "b@x.com"]]) sample_store)) 2
     = Some [mkRecipient (VStr "a@x.com") (VStr "") (Some 1%positive) (Some "to");
             mkRecipient (VStr "b@x.com") (VStr "Bob") (Some 1%positive)
               (Some "to")].
Proof.
  assert (Hs : sample_store !! 2%positive = Some (Collection sample_collection))
    by reflexivity.
  assert (Hsafe : notifier_safe sample_collection sample_store = true)
    by reflexivity.
  assert (Hw : well_shaped (VList [VList [VStr "a@x.com"]; VNone;
                                   VTuple [VStr "Bob"; VStr "b@x.com"]]) = true)
    by reflexivity.
  split; [exact Hs|]. split; [exact Hsafe|]. split; [exact Hw|].
  rewrite (add_appends_in_order _ _ _ _ Hs Hsafe Hw). reflexivity.
Defined.

(** X2: when the notification cannot raise, [add] returns exactly on the
    well-shaped inputs; on every other input, that is, as soon as a truthy
    value of another type or a tuple that is not a pair occurs at any depth,
    it raises a [ValueError]. *)
Theorem add_raises_iff_ill_shaped (h : store) (self : loc) (c : Recipients)
    (v : pyval) :
  h !! self = Some (Collection c) ->
  notifier_safe c h = true ->
  (fst (add self v h) = Ret tt <-> well_shaped v = true)
  /\ ((exists msg, fst (add self v h) = Raise (ValueError msg))
      <-> well_shaped v = false).
Proof.
  intros Hs Hsafe. destruct (well_shaped v) eqn:Hw.
  - rewrite (add_meets_all self v h c Hs Hsafe Hw). simpl.
    split; [tauto|]. split; [intros [msg H]|]; discriminate.
  - destruct (add_fails_all self v h c Hs Hsafe Hw) as (msg & h' & Hadd).
    rewrite Hadd. simpl. split; [split; discriminate|].
    split; [reflexivity|]. intros _. now exists msg.
Qed.

Lemma add_raises_iff_ill_shaped_witness :
  sample_store !! 2%positive = Some (Collection sample_collection)
  /\ notifier_safe sample_collection sample_store = true
  /\ exists msg,
       fst (add 2 (VList [VStr "a@x.com"; VList [VTuple [VStr "Bob"]]])
              sample_store)
       = Raise (ValueError msg).
Proof.
  assert (Hs : sample_store !! 2%positive = Some (Collection sample_collection))
    by reflexivity.
  assert (Hsafe : notifier_safe sample_collection sample_store = true)
    by reflexivity.
  split; [exact Hs|]. split; [exact Hsafe|].
  apply (add_raises_iff_ill_shaped _ _ _
           (VList [VStr "a@x.com"; VList [VTuple [VStr "Bob"]]]) Hs Hsafe).
  reflexivity.
Defined.

(** ** The constructor *)

Lemma notified_untracked (h : store) c : untrack c = true -> notified c h = h.
Proof.
  intros Hu. unfold notified. rewrite Hu.
  destruct (coll_field c), (coll_parent c); try reflexivity.
  rewrite andb_false_r. now destruct (getattr_track_changes _ h).
Qed.

Lemma fresh_unused (h : store) : h !! fresh (dom h) = None.
Proof. apply not_elem_of_dom, is_fresh. Qed.

(** The store in which the constructor runs [add]. *)
Lemma init_unfold (recipients : pyval) (parent : option loc)
    (field : option string) (h : store) :
  __init__ recipients parent field h
  = ((if truthy recipients then add (fresh (dom h)) recipients else ret tt) ;;
     c <- load (fresh (dom h)) ;;
     save (fresh (dom h)) (set_untrack c false) ;;
     ret (fresh (dom h)))
      (<[fresh (dom h) := Collection {| coll_parent := parent;
                                        coll_field := field;
                                        _recipients := [];
                                        untrack := true |}]> h).
Proof. reflexivity. Qed.

Lemma init_well_shaped (recipients : pyval) (parent : option loc)
    (field : option string) (h : store) :
  well_shaped recipients = true ->
  __init__ recipients parent field h
  = (Ret (fresh (dom h)),
     <[fresh (dom h) :=
         Collection {| coll_parent := parent; coll_field := field;
                       _recipients := appended parent field recipients;
                       untrack := false |}]> h).
Proof.
  intros Hw. rewrite init_unfold.
  set (self := fresh (dom h)).
  set (c0 := {| coll_parent := parent; coll_field := field;
                _recipients := []; untrack := true |}).
  assert (Hadd : (if truthy recipients then add self recipients else ret tt)
                   (<[self := Collection c0]> h)
                 = (Ret tt,
                    <[self := Collection
                                (set_recipients c0
                                   (appended parent field recipients))]> h)).
  { destruct (truthy recipients) eqn:Ht.
    - rewrite (add_meets_all self recipients _ c0 (lookup_insert_eq _ _ _)
                 eq_refl Hw).
      unfold step. rewrite Ht, (notified_untracked _ c0 eq_refl).
      unfold saved. now rewrite insert_insert_eq.
    - now rewrite (appended_falsy _ _ _ Ht). }
  rewrite (bind_ret_at _ _ _ _ _ Hadd).
  rewrite (bind_ret_at _ _ _ _ _ (load_at _ _ _ (lookup_insert_eq _ _ _))).
  unfold save, bind, ret. now rewrite insert_insert_eq.
Qed.

(** X3: on a well-shaped input the constructor returns a new collection
    that holds the recipients of [appended] in the order of the input, with
    the given parent and field and with notifications switched on again; its
    length is the number of these recipients, and nothing else in the store
    has changed. *)
Theorem init_builds_appended (recipients : pyval) (parent : option loc)
    (field : option string) (h : store) :
  well_shaped recipients = true ->
  exists h',
    __init__ recipients parent field h = (Ret (fresh (dom h)), h')
    /\ h' !! fresh (dom h)
       = Some (Collection {| coll_parent := parent; coll_field := field;
                             _recipients := appended parent field recipients;
                             untrack := false |})
    /\ delete (fresh (dom h)) h' = h
    /\ __len__ (fresh (dom h)) h'
       = (Ret (length (appended parent field recipients)), h').
Proof.
  intros Hw. eexists. split; [apply (init_well_shaped _ _ _ _ Hw)|].
  assert (Hl : forall x : object,
            <[fresh (dom h) := x]> h !! fresh (dom h) = Some x)
    by (intros x; apply lookup_insert_eq).
  split; [apply Hl|]. split.
  - now rewrite delete_insert_eq, (delete_id _ _ (fresh_unused h)).
  - unfold __len__. now rewrite (bind_ret_at _ _ _ _ _ (load_at _ _ _ (Hl _))).
Qed.

Lemma init_builds_appended_witness :
  well_shaped mixed_input = true
  /\ exists h',
       __init__ mixed_input (Some 1%positive) (Some "to") owner_store
       = (Ret (fresh (dom owner_store)), h')
       /\ __len__ (fresh (dom owner_store)) h' = (Ret 2, h').
Proof.
  split; [reflexivity|].
  destruct (init_builds_appended mixed_input (Some 1%positive) (Some "to")
              owner_store eq_refl) as (h' & Hinit & _ & _ & Hlen).
  exists h'. split; [exact Hinit|exact Hlen].
Defined.

(** X4: on any other input the constructor raises a [ValueError], whatever
    the parent and the field, as notifications are suppressed while it
    runs. *)
Theorem init_raises_on_ill_shaped (recipients : pyval) (parent : option loc)
    (field : option string) (h : store) :
  well_shaped recipients = false ->
  exists msg, fst (__init__ recipients parent field h) = Raise (ValueError msg).
Proof.
  intros Hw. rewrite init_unfold.
  rewrite (well_shaped_truthy _ Hw).
  set (c0 := {| coll_parent := parent; coll_field := field;
                _recipients := []; untrack := true |}).
  destruct (add_fails_all (fresh (dom h)) recipients
              (<[fresh (dom h) := Collection c0]> h) c0
              (lookup_insert_eq _ _ _) (eq_refl true) Hw) as (msg & h' & Hadd).
  exists msg. now rewrite (bind_raise_at _ _ _ _ _ Hadd).
Qed.

Lemma init_raises_on_ill_shaped_witness :
  well_shaped (VList [VStr "a@x.com"; VDict {[ "address" := VStr "b@x.com" ]}])
  = false
  /\ exists msg,
       fst (__init__
              (VList [VStr "a@x.com"; VDict {[ "address" := VStr "b@x.com" ]}])
              None None ∅)
       = Raise (ValueError msg).
Proof.
  split; [reflexivity|]. apply init_raises_on_ill_shaped. reflexivity.
Defined.

(** ** The first recipient with an address *)

Lemma appended_addressed (parent : option loc) (field : option string)
    (v : pyval) :
  forallb addressed (appended parent field v) = true.
Proof.
  induction v as [v Hnl|l IH] using pyval_list_ind.
  - destruct (truthy v) eqn:Ht; [|now rewrite (appended_falsy _ _ _ Ht)].
    destruct v as [| b | z | s | t | l | d | r]; simpl in Ht |- *;
      rewrite ?Ht; try reflexivity.
    + unfold addressed, RecipientClass.__init__, py_or. simpl.
      now repeat (rewrite ?Ht; simpl).
    + destruct t as [|n [|a [|x t]]]; try reflexivity.
      destruct (truthy a) eqn:Ha; [|reflexivity].
      unfold addressed, RecipientClass.__init__, py_or. simpl.
      now repeat (rewrite ?Ha; simpl).
    + now destruct (Hnl l).
    + unfold addressed. simpl. now rewrite Ht.
  - destruct l as [|x l]; [reflexivity|].
    change (appended parent field (VList (x :: l)))
      with (flat_map (appended parent field) (x :: l)).
    induction IH as [|y l' Hy _ IHl]; [reflexivity|].
    simpl. now rewrite forallb_app, Hy, IHl.
Qed.

Lemma first_of_addressed (l : list Recipient) :
  forallb addressed l = true ->
  List.filter (fun r => truthy (RecipientClass.address r)) l = l.
Proof. intros H. now apply forallb_filter_id. Qed.

Lemma filter_first {A} (f : A -> bool) (l : list A) :
  match List.filter f l with
  | [] => existsb f l = false
  | r :: _ =>
      exists before after,
        l = before ++ r :: after /\ existsb f before = false /\ f r = true
  end.
Proof.
  induction l as [|x l IH]; [reflexivity|]. simpl.
  destruct (f x) eqn:Hx.
  - exists [], l. now repeat split.
  - destruct (List.filter f l) as [|r rest]; [exact IH|].
    destruct IH as (before & after & -> & Hb & Hr).
    exists (x :: before), after. simpl. now rewrite Hx.
Qed.

(** X5: [get_first_recipient_with_address] leaves the store as it is and
    returns None exactly when no recipient has an address; otherwise it
    returns a recipient of the sequence that has an address, every recipient
    before it having none. *)
Theorem first_with_address_found (h : store) (self : loc) (c : Recipients) :
  h !! self = Some (Collection c) ->
  exists o,
    get_first_recipient_with_address self h = (Ret o, h)
    /\ match o with
       | None => existsb addressed (_recipients c) = false
       | Some r =>
           exists before after,
             _recipients c = before ++ r :: after
             /\ existsb addressed before = false
             /\ addressed r = true
       end.
Proof.
  intros Hs. unfold get_first_recipient_with_address.
  rewrite (bind_ret_at _ _ _ _ _ (load_at _ _ _ Hs)).
  pose proof (filter_first addressed (_recipients c)) as H.
  unfold addressed in H at 1. unfold RecipientClass.address.
  destruct (List.filter _ (_recipients c)) as [|r rest].
  - now exists None.
  - now exists (Some r).
Qed.

Lemma first_with_address_found_witness :
  two_store !! 2%positive = Some (Collection two_collection)
  /\ exists o,
       get_first_recipient_with_address 2 two_store = (Ret o, two_store)
       /\ match o with
          | None => existsb addressed (_recipients two_collection) = false
          | Some r =>
              exists before after,
                _recipients two_collection = before ++ r :: after
                /\ existsb addressed before = false
                /\ addressed r = true
          end.
Proof.
  assert (Hs : two_store !! 2%positive = Some (Collection two_collection))
    by reflexivity.
  split; [exact Hs|]. exact (first_with_address_found _ _ _ Hs).
Defined.

(** X6: a collection the constructor returns holds only recipients that have
    an address, so that its first recipient with an address is its first
    recipient, and None is returned only for an empty collection. *)
Theorem first_of_constructed (recipients : pyval) (parent : option loc)
    (field : option string) (h : store) :
  well_shaped recipients = true ->
  exists l,
    recipients_of (snd (__init__ recipients parent field h)) (fresh (dom h))
    = Some l
    /\ forallb addressed l = true
    /\ get_first_recipient_with_address (fresh (dom h))
         (snd (__init__ recipients parent field h))
       = (Ret (head l), snd (__init__ recipients parent field h)).
Proof.
  intros Hw. exists (appended parent field recipients).
  rewrite (init_well_shaped _ _ _ _ Hw). simpl.
  split; [unfold recipients_of; now rewrite lookup_insert_eq|].
  split; [apply appended_addressed|].
  unfold get_first_recipient_with_address.
  rewrite (bind_ret_at _ _ _ _ _ (load_at _ _ _ (lookup_insert_eq _ _ _))).
  cbn [_recipients].
  rewrite (first_of_addressed _ (appended_addressed parent field recipients)).
  now destruct (appended parent field recipients).
Qed.

Lemma first_of_constructed_witness :
  well_shaped mixed_input = true
  /\ fst (get_first_recipient_with_address 2
            (snd (__init__ mixed_input (Some 1%positive) (Some "to")
                    owner_store)))
     = Ret (Some (mkRecipient (VStr "a@x.com") (VStr "") (Some 1%positive)
                    (Some "to"))).
Proof.
  split; [reflexivity|].
  destruct (first_of_constructed mixed_input (Some 1%positive) (Some "to")
              owner_store eq_refl) as (l & Hl & _ & Hfirst).
  change (fresh (dom owner_store)) with 2%positive in Hl, Hfirst.
  rewrite Hfirst. simpl. apply f_equal.
  assert (Hl' : Some l
                = Some [mkRecipient (VStr "a@x.com") (VStr "") (Some 1%positive)
                          (Some "to");
                        mkRecipient (VStr "b@x.com") (VStr "Bob")
                          (Some 1%positive) (Some "to")])
    by (rewrite <- Hl; vm_compute; reflexivity).
  injection Hl' as ->. reflexivity.
Defined.

(** ** Membership *)

Lemma address_set_hashable (l : list Recipient) :
  hashable_addresses l = true -> address_set l = Ret (map _address l).
Proof.
  induction l as [|r l IH]; [reflexivity|]. simpl.
  intros [Hr Hl]%andb_prop. unfold RecipientClass.address.
  now rewrite Hr, (IH Hl).
Qed.

Lemma address_set_unhashable (l : list Recipient) :
  hashable_addresses l = false ->
  address_set l = Raise (TypeError "unhashable type").
Proof.
  induction l as [|r l IH]; [discriminate|]. simpl.
  unfold RecipientClass.address.
  destruct (hashable (_address r)); [|reflexivity].
  simpl. intros Hl. now rewrite (IH Hl).
Qed.

Lemma keep_not_in_unhashable (s : gset string) (l : list Recipient) :
  hashable_addresses l = false ->
  keep_not_in s l = Raise (TypeError "unhashable type").
Proof.
  induction l as [|r l IH]; [discriminate|]. simpl.
  unfold py_in, RecipientClass.address.
  destruct (hashable (_address r)); [|reflexivity].
  simpl. intros Hl. rewrite (IH Hl). now destruct (_address r).
Qed.

(** The addresses of [l] that are the string [item]. *)
Lemma existsb_is_address (item : string) (l : list Recipient) :
  existsb (fun v => match v with
                    | VStr a => String.eqb a item
                    | _ => false
                    end) (map _address l) = true
  <-> exists r, In r l /\ _address r = VStr item.
Proof.
  rewrite existsb_exists. split.
  - intros (v & Hin & Hv). apply in_map_iff in Hin as (r & <- & Hr).
    exists r. split; [exact Hr|].
    destruct (_address r); try discriminate.
    apply String.eqb_eq in Hv. now subst.
  - intros (r & Hr & Ha). exists (VStr item). split.
    + rewrite <- Ha. now apply in_map.
    + apply String.eqb_refl.
Qed.

Lemma contains_by_address_aux (self : loc) (item : string) (h : store)
    (c : Recipients) :
  h !! self = Some (Collection c) ->
  hashable_addresses (_recipients c) = true ->
  exists b,
    __contains__ self item h = (Ret b, h)
    /\ (b = true <-> exists r, In r (_recipients c) /\ _address r = VStr item).
Proof.
  intros Hs Hh. eexists. split.
  - unfold __contains__. rewrite (bind_ret_at _ _ _ _ _ (load_at _ _ _ Hs)).
    now rewrite (address_set_hashable _ Hh).
  - apply existsb_is_address.
Qed.

(** X7: when every held address can be hashed, [item in collection] leaves
    the store as it is and is true exactly when some recipient of the
    sequence has the string [item] as its address; names play no part. *)
Theorem contains_by_address (h : store) (self : loc) (c : Recipients)
    (item : string) :
  h !! self = Some (Collection c) ->
  hashable_addresses (_recipients c) = true ->
  exists b,
    __contains__ self item h = (Ret b, h)
    /\ (b = true <-> exists r, In r (_recipients c) /\ _address r = VStr item).
Proof.
  intros Hs Hh. eexists. split.
  - unfold __contains__. rewrite (bind_ret_at _ _ _ _ _ (load_at _ _ _ Hs)).
    now rewrite (address_set_hashable _ Hh).
  - apply existsb_is_address.
Qed.

Lemma contains_by_address_witness :
  two_store !! 2%positive = Some (Collection two_collection)
  /\ hashable_addresses (_recipients two_collection) = true
  /\ exists b,
       __contains__ 2 "b@x.com" two_store = (Ret b, two_store)
       /\ (b = true
           <-> exists r, In r (_recipients two_collection)
                         /\ _address r = VStr "b@x.com").
Proof.
  assert (Hs : two_store !! 2%positive = Some (Collection two_collection))
    by reflexivity.
  assert (Hh : hashable_addresses (_recipients two_collection) = true)
    by reflexivity.
  split; [exact Hs|]. split; [exact Hh|].
  exact (contains_by_address _ _ _ "b@x.com" Hs Hh).
Defined.

(** X8: when some held address cannot be hashed (a list or a dict stored as
    address), both [item in collection] and [remove] raise a [TypeError] and
    leave the store as it was. *)
Theorem unhashable_address_raises (h : store) (self : loc) (c : Recipients)
    (item : string) (address : addresses) :
  h !! self = Some (Collection c) ->
  hashable_addresses (_recipients c) = false ->
  __contains__ self item h = (Raise (TypeError "unhashable type"), h)
  /\ remove self address h = (Raise (TypeError "unhashable type"), h).
Proof.
  intros Hs Hh. split.
  - unfold __contains__. rewrite (bind_ret_at _ _ _ _ _ (load_at _ _ _ Hs)).
    now rewrite (address_set_unhashable _ Hh).
  - unfold remove. rewrite (bind_ret_at _ _ _ _ _ (load_at _ _ _ Hs)).
    now rewrite (keep_not_in_unhashable _ _ Hh).
Qed.

Lemma unhashable_address_raises_witness :
  listed_store !! 2%positive = Some (Collection listed_collection)
  /\ hashable_addresses (_recipients listed_collection) = false
  /\ snd (add 2 (VTuple [VStr "Ann"; VList [VStr "a@x.com"]]) sample_store)
     = listed_store
  /\ __contains__ 2 "a@x.com" listed_store
     = (Raise (TypeError "unhashable type"), listed_store)
  /\ remove 2 (AddrStr "a@x.com") listed_store
     = (Raise (TypeError "unhashable type"), listed_store).
Proof.
  assert (Hs : listed_store !! 2%positive = Some (Collection listed_collection))
    by reflexivity.
  assert (Hh : hashable_addresses (_recipients listed_collection) = false)
    by reflexivity.
  split; [exact Hs|]. split; [exact Hh|].
  split; [vm_compute; reflexivity|].
  exact (unhashable_address_raises _ _ _ "a@x.com" (AddrStr "a@x.com") Hs Hh).
Defined.

(** ** Removing, in general *)

Lemma remove_safe (h : store) (self : loc) (c : Recipients)
    (address : addresses) :
  h !! self = Some (Collection c) ->
  notifier_safe c h = true ->
  hashable_addresses (_recipients c) = true ->
  remove self address h
  = (Ret tt,
     saved self c (kept_by (removal_set address) (_recipients c))
       (if Nat.eqb (length (kept_by (removal_set address) (_recipients c)))
                   (length (_recipients c))
        then h else notified c h)).
Proof.
  intros Hs Hsafe Hh. unfold remove.
  rewrite (bind_ret_at _ _ _ _ _ (load_at _ _ _ Hs)).
  rewrite (keep_not_in_kept_by _ _ Hh).
  destruct (Nat.eqb _ _); simpl.
  - rewrite (bind_ret_at (ret tt) _ h h tt eq_refl).
    now rewrite (bind_ret_at _ _ _ _ _ (load_at _ _ _ Hs)).
  - rewrite (bind_ret_at _ _ _ _ _ (track_changes_safe _ _ _ Hs Hsafe)).
    now rewrite (bind_ret_at _ _ _ _ _
                   (load_at _ _ _ (notified_lookup_self _ _ c _ Hs))).
Qed.

Lemma remove_safe_lookup (h : store) (self : loc) (c : Recipients)
    (address : addresses) :
  h !! self = Some (Collection c) ->
  notifier_safe c h = true ->
  hashable_addresses (_recipients c) = true ->
  snd (remove self address h) !! self
  = Some (Collection
            (set_recipients c (kept_by (removal_set address) (_recipients c)))).
Proof.
  intros Hs Hsafe Hh. rewrite (remove_safe _ _ _ _ Hs Hsafe Hh).
  apply lookup_insert_eq.
Qed.

Lemma address_in_singleton (a : string) (r : Recipient) :
  address_in {[ a ]} r = true <-> _address r = VStr a.
Proof.
  unfold address_in. destruct (_address r); try (split; discriminate).
  rewrite bool_decide_eq_true, elem_of_singleton. split; congruence.
Qed.

Lemma kept_by_in (s : gset string) (l : list Recipient) (r : Recipient) :
  In r (kept_by s l) <-> In r l /\ address_in s r = false.
Proof.
  unfold kept_by. rewrite filter_In. now rewrite negb_true_iff.
Qed.

(** X9: when the notification cannot raise and every held address can be
    hashed, after [remove] a string the argument names (the address itself,
    or an element of the list, tuple or set) is no longer in the collection,
    and every other string is in it exactly if it was before. *)
Theorem contains_after_remove (h : store) (self : loc) (c : Recipients)
    (address : addresses) (item : string) :
  h !! self = Some (Collection c) ->
  notifier_safe c h = true ->
  hashable_addresses (_recipients c) = true ->
  fst (__contains__ self item (snd (remove self address h)))
  = if mentions address item
    then Ret false
    else fst (__contains__ self item h).
Proof.
  intros Hs Hsafe Hh. rewrite <- (mentions_removal_set address item).
  pose proof (remove_safe_lookup _ _ _ address Hs Hsafe Hh) as Hs'.
  set (kept := kept_by (removal_set address) (_recipients c)) in *.
  assert (Hh' : hashable_addresses kept = true)
    by now apply hashable_addresses_kept_by.
  destruct (contains_by_address_aux self item _ _ Hs' Hh') as (b' & -> & Hb').
  destruct (contains_by_address_aux self item _ _ Hs Hh) as (b & -> & Hb).
  simpl. cbn [_recipients set_recipients] in Hb'.
  destruct (bool_decide (item ∈ removal_set address)) eqn:Hin.
  - apply bool_decide_eq_true in Hin. apply f_equal.
    destruct b'; [|reflexivity].
    destruct (proj1 Hb' eq_refl) as (r & Hr & Ha).
    apply kept_by_in in Hr as [_ Hr]. unfold address_in in Hr.
    rewrite Ha in Hr. now rewrite (bool_decide_eq_true_2 _ Hin) in Hr.
  - apply bool_decide_eq_false in Hin. apply f_equal.
    destruct b, b'; try reflexivity.
    + destruct (proj1 Hb eq_refl) as (r & Hr & Ha).
      apply (proj2 Hb'). exists r. split; [|exact Ha].
      apply kept_by_in. split; [exact Hr|]. unfold address_in. rewrite Ha.
      now apply bool_decide_eq_false_2.
    + destruct (proj1 Hb' eq_refl) as (r & Hr & Ha).
      symmetry. apply (proj2 Hb). exists r. split; [|exact Ha].
      now apply kept_by_in in Hr.
Qed.

Lemma contains_after_remove_witness :
  two_store !! 2%positive = Some (Collection two_collection)
  /\ notifier_safe two_collection two_store = true
  /\ hashable_addresses (_recipients two_collection) = true
  /\ fst (__contains__ 2 "a@x.com"
            (snd (remove 2 (AddrTuple ["a@x.com"; "c@x.com"]) two_store)))
     = Ret false
  /\ fst (__contains__ 2 "b@x.com"
            (snd (remove 2 (AddrTuple ["a@x.com"; "c@x.com"]) two_store)))
     = Ret true
  /\ fst (__contains__ 2 "a@x.com" (snd (remove 2 (AddrStr "a@x.com") two_store)))
     = Ret false.
Proof.
  assert (Hs : two_store !! 2%positive = Some (Collection two_collection))
    by reflexivity.
  assert (Hsafe : notifier_safe two_collection two_store = true) by reflexivity.
  assert (Hh : hashable_addresses (_recipients two_collection) = true)
    by reflexivity.
  split; [exact Hs|]. split; [exact Hsafe|]. split; [exact Hh|].
  split; [|split].
  - rewrite (contains_after_remove _ _ _ (AddrTuple ["a@x.com"; "c@x.com"])
               "a@x.com" Hs Hsafe Hh).
    reflexivity.
  - rewrite (contains_after_remove _ _ _ (AddrTuple ["a@x.com"; "c@x.com"])
               "b@x.com" Hs Hsafe Hh).
    reflexivity.
  - rewrite (contains_after_remove _ _ _ (AddrStr "a@x.com") "a@x.com"
               Hs Hsafe Hh).
    reflexivity.
Defined.

Lemma address_in_union (s1 s2 : gset string) (r : Recipient) :
  address_in (s1 ∪ s2) r = address_in s1 r || address_in s2 r.
Proof.
  unfold address_in. destruct (_address r); try reflexivity.
  apply eq_true_iff_eq.
  rewrite orb_true_iff, !bool_decide_eq_true. apply elem_of_union.
Qed.

Lemma kept_by_union (s1 s2 : gset string) (l : list Recipient) :
  kept_by (s1 ∪ s2) l = kept_by s2 (kept_by s1 l).
Proof.
  induction l as [|r l IH]; [reflexivity|].
  unfold kept_by in *. simpl. rewrite address_in_union.
  destruct (address_in s1 r); simpl; [exact IH|].
  destruct (address_in s2 r); simpl; [exact IH|]. now rewrite IH.
Qed.

Lemma kept_by_length (s : gset string) (l : list Recipient) :
  length (kept_by s l) <= length l.
Proof. apply filter_length_le. Qed.

(** Two removals against the removal of the union of the sets searched. *)
Lemma remove_twice_sets (h : store) (self : loc) (c : Recipients)
    (a1 a2 : addresses) :
  h !! self = Some (Collection c) ->
  notifier_safe c h = true ->
  hashable_addresses (_recipients c) = true ->
  remove self a2 (snd (remove self a1 h))
  = remove self (AddrSet (removal_set a1 ∪ removal_set a2)) h.
Proof.
  intros Hs Hsafe Hh.
  set (s1 := removal_set a1). set (s2 := removal_set a2).
  set (l := _recipients c). set (k1 := kept_by s1 l).
  assert (Hs1 : snd (remove self a1 h) !! self
                = Some (Collection (set_recipients c k1)))
    by apply (remove_safe_lookup _ _ _ _ Hs Hsafe Hh).
  assert (Hsafe1 : notifier_safe (set_recipients c k1) (snd (remove self a1 h))
                   = true).
  { change (notifier_safe (set_recipients c k1)) with (notifier_safe c).
    rewrite (remove_safe _ _ _ _ Hs Hsafe Hh). unfold saved. simpl.
    destruct (Nat.eqb _ _).
    - now rewrite (notifier_safe_saved _ _ _ _ _ Hs).
    - rewrite (notifier_safe_saved _ _ _ _ _ (notified_lookup_self _ _ c _ Hs)).
      now rewrite notifier_safe_notified. }
  assert (Hh1 : hashable_addresses (_recipients (set_recipients c k1)) = true)
    by now apply hashable_addresses_kept_by.
  rewrite (remove_safe _ _ _ a2 Hs1 Hsafe1 Hh1).
  rewrite (remove_safe _ _ _ (AddrSet (s1 ∪ s2)) Hs Hsafe Hh).
  rewrite (remove_safe _ _ _ a1 Hs Hsafe Hh).
  cbn [_recipients set_recipients removal_set snd].
  fold s1 s2 l k1. rewrite (kept_by_union s1 s2 l). fold k1.
  change (notified (set_recipients c k1)) with (notified c).
  apply f_equal. unfold saved.
  change (set_recipients (set_recipients c k1) (kept_by s2 k1))
    with (set_recipients c (kept_by s2 k1)).
  pose proof (kept_by_length s1 l) as Hle1. fold k1 in Hle1.
  pose proof (kept_by_length s2 k1) as Hle2.
  destruct (Nat.eqb_spec (length k1) (length l)) as [E1|N1],
    (Nat.eqb_spec (length (kept_by s2 k1)) (length k1)) as [E2|N2],
    (Nat.eqb_spec (length (kept_by s2 k1)) (length l)) as [E3|N3];
    try lia.
  - now rewrite insert_insert_eq.
  - rewrite (notified_saved _ _ _ _ _ Hs). now rewrite insert_insert_eq.
  - now rewrite insert_insert_eq.
  - rewrite (notified_saved _ _ _ _ _ (notified_lookup_self _ _ c _ Hs)).
    now rewrite notified_idem, insert_insert_eq.
Qed.

Lemma removal_set_members (address : addresses) :
  list_to_set (members address) = removal_set address.
Proof.
  destruct address as [x|l|l|s]; simpl; try reflexivity.
  - apply union_empty_r_L.
  - apply list_to_set_elements_L.
Qed.

Lemma remove_same_set (h : store) (self : loc) (a b : addresses) :
  removal_set a = removal_set b -> remove self a h = remove self b h.
Proof. intros H. unfold remove. now rewrite H. Qed.

(** X10: when the notification cannot raise and every held address can be
    hashed, two removals in a row leave exactly the result and the store that
    the single removal of the list of all the addresses the two arguments
    name leaves; the sequence left holds the recipients whose address neither
    argument names, and the field name is in the parent's set exactly if
    something was removed. *)
Theorem remove_twice_is_remove_union (h : store) (self : loc) (c : Recipients)
    (a1 a2 : addresses) :
  h !! self = Some (Collection c) ->
  notifier_safe c h = true ->
  hashable_addresses (_recipients c) = true ->
  remove self a2 (snd (remove self a1 h))
  = remove self (AddrList (members a1 ++ members a2)) h
  /\ recipients_of (snd (remove self a2 (snd (remove self a1 h)))) self
     = Some (List.filter (fun r => negb (named_by a1 r || named_by a2 r))
               (_recipients c))
  /\ snd (remove self a2 (snd (remove self a1 h)))
     = saved self c
         (List.filter (fun r => negb (named_by a1 r || named_by a2 r))
            (_recipients c))
         (if Nat.eqb
               (length (List.filter
                          (fun r => negb (named_by a1 r || named_by a2 r))
                          (_recipients c)))
               (length (_recipients c))
          then h else notified c h).
Proof.
  intros Hs Hsafe Hh.
  assert (Hset : removal_set (AddrList (members a1 ++ members a2))
                 = removal_set (AddrSet (removal_set a1 ∪ removal_set a2))).
  { simpl. now rewrite list_to_set_app_L, !removal_set_members. }
  assert (Hkept : kept_by (removal_set a1 ∪ removal_set a2) (_recipients c)
                  = List.filter (fun r => negb (named_by a1 r || named_by a2 r))
                      (_recipients c)).
  { unfold kept_by. apply filter_ext. intros r.
    now rewrite address_in_union, !address_in_named_by. }
  rewrite (remove_twice_sets _ _ _ a1 a2 Hs Hsafe Hh).
  split; [now apply remove_same_set|].
  rewrite (remove_safe _ _ _ (AddrSet (removal_set a1 ∪ removal_set a2))
             Hs Hsafe Hh).
  cbn [removal_set snd]. rewrite Hkept.
  split; [|reflexivity].
  unfold recipients_of, saved. now rewrite lookup_insert_eq.
Qed.

Lemma remove_twice_is_remove_union_witness :
  two_store !! 2%positive = Some (Collection two_collection)
  /\ notifier_safe two_collection two_store = true
  /\ hashable_addresses (_recipients two_collection) = true
  /\ remove 2 (AddrTuple ["b@x.com"]) (snd (remove 2 (AddrStr "a@x.com") two_store))
     = remove 2 (AddrList ["a@x.com"; "b@x.com"]) two_store
  /\ recipients_of
       (snd (remove 2 (AddrTuple ["b@x.com"])
               (snd (remove 2 (AddrStr "a@x.com") two_store)))) 2
     = Some [].
Proof.
  assert (Hs : two_store !! 2%positive = Some (Collection two_collection))
    by reflexivity.
  assert (Hsafe : notifier_safe two_collection two_store = true) by reflexivity.
  assert (Hh : hashable_addresses (_recipients two_collection) = true)
    by reflexivity.
  split; [exact Hs|]. split; [exact Hsafe|]. split; [exact Hh|].
  destruct (remove_twice_is_remove_union _ _ _ (AddrStr "a@x.com")
              (AddrTuple ["b@x.com"]) Hs Hsafe Hh) as (H1 & H2 & _).
  split; [exact H1|]. rewrite H2. reflexivity.
Defined.

(** ** Clearing, in general *)

Lemma clear_safe (h : store) (self : loc) (c : Recipients) :
  h !! self = Some (Collection c) -> notifier_safe c h = true ->
  clear self h = (Ret tt, notified c (saved self c [] h)).
Proof.
  intros Hs Hsafe. unfold clear.
  rewrite (bind_ret_at _ _ _ _ _ (load_at _ _ _ Hs)).
  unfold save at 1.
  rewrite (bind_ret_at (fun h0 => (Ret tt, <[self := Collection (set_recipients c [])]> h0))
             _ h _ tt eq_refl).
  apply (notify_after_save _ _ _ _ Hs Hsafe).
Qed.

(** X11: when the notification cannot raise, [clear] returns, a second
    [clear] changes nothing more, and on the cleared collection the length is
    0, the truth value false, no string is a member and there is no first
    recipient with an address. *)
Theorem clear_then_read (h : store) (self : loc) (c : Recipients)
    (item : string) :
  h !! self = Some (Collection c) ->
  notifier_safe c h = true ->
  exists h',
    clear self h = (Ret tt, h')
    /\ clear self h' = (Ret tt, h')
    /\ __len__ self h' = (Ret 0, h')
    /\ __bool__ self h' = (Ret false, h')
    /\ __contains__ self item h' = (Ret false, h')
    /\ get_first_recipient_with_address self h' = (Ret None, h').
Proof.
  intros Hs Hsafe. exists (notified c (saved self c [] h)).
  assert (Hs' : notified c (saved self c [] h) !! self
                = Some (Collection (set_recipients c []))).
  { apply notified_lookup_self. apply lookup_insert_eq. }
  assert (Hsafe' : notifier_safe (set_recipients c [])
                     (notified c (saved self c [] h)) = true).
  { change (notifier_safe (set_recipients c [])) with (notifier_safe c).
    unfold saved.
    now rewrite notifier_safe_notified, (notifier_safe_saved _ _ _ _ _ Hs). }
  split; [now apply clear_safe|]. split.
  - rewrite (clear_safe _ _ _ Hs' Hsafe').
    change (notified (set_recipients c [])) with (notified c).
    unfold saved.
    change (set_recipients (set_recipients c []) []) with (set_recipients c []).
    rewrite (insert_id _ _ _ Hs'). now rewrite notified_idem.
  - unfold __len__, __bool__, __contains__, get_first_recipient_with_address.
    rewrite !(bind_ret_at _ _ _ _ _ (load_at _ _ _ Hs')). now repeat split.
Qed.

Lemma clear_then_read_witness :
  two_store !! 2%positive = Some (Collection two_collection)
  /\ notifier_safe two_collection two_store = true
  /\ exists h',
       clear 2 two_store = (Ret tt, h')
       /\ clear 2 h' = (Ret tt, h')
       /\ __len__ 2 h' = (Ret 0, h')
       /\ __bool__ 2 h' = (Ret false, h')
       /\ __contains__ 2 "a@x.com" h' = (Ret false, h')
       /\ get_first_recipient_with_address 2 h' = (Ret None, h').
Proof.
  assert (Hs : two_store !! 2%positive = Some (Collection two_collection))
    by reflexivity.
  assert (Hsafe : notifier_safe two_collection two_store = true) by reflexivity.
  split; [exact Hs|]. split; [exact Hsafe|].
  exact (clear_then_read _ _ _ "a@x.com" Hs Hsafe).
Defined.

(** ** A parent that is itself a collection *)

Lemma track_changes_unsafe (h : store) (self : loc) (c : Recipients) :
  h !! self = Some (Collection c) -> notifier_safe c h = false ->
  _track_changes self h
  = (Raise (AttributeError "'method' object has no attribute 'add'"), h).
Proof.
  intros Hs Hsafe. unfold _track_changes, bind. rewrite (load_at _ _ _ Hs).
  unfold notifier_safe, truthy_field in Hsafe.
  destruct (untrack c); [discriminate|].
  destruct (coll_field c) as [f|]; [|discriminate].
  destruct (negb (String.eqb f "")); [|discriminate].
  unfold track_changes_add.
  destruct (getattr_track_changes (coll_parent c) h); try discriminate.
  reflexivity.
Qed.



(** ** Reading after an add *)

(** X13: after [add] of a non-empty address string the new recipient is the
    last of the iteration, the length has grown by one, the collection is
    truthy and the string is a member. *)
Theorem add_string_then_read (h : store) (self : loc) (c : Recipients)
    (s : string) :
  h !! self = Some (Collection c) ->
  notifier_safe c h = true ->
  hashable_addresses (_recipients c) = true ->
  truthy (VStr s) = true ->
  exists h',
    add self (VStr s) h = (Ret tt, h')
    /\ __iter__ self h'
       = (Ret (_recipients c
               ++ [mkRecipient (VStr s) (VStr "") (coll_parent c) (coll_field c)]),
          h')
    /\ __len__ self h' = (Ret (S (length (_recipients c))), h')
    /\ __bool__ self h' = (Ret true, h')
    /\ __contains__ self s h' = (Ret true, h').
Proof.
  intros Hs Hsafe Hh Ht.
  set (r := mkRecipient (VStr s) (VStr "") (coll_parent c) (coll_field c)).
  exists (notified c (saved self c (_recipients c ++ [r]) h)).
  assert (Hs' : notified c (saved self c (_recipients c ++ [r]) h) !! self
                = Some (Collection (set_recipients c (_recipients c ++ [r]))))
    by apply notified_lookup_self, lookup_insert_eq.
  split.
  - rewrite (add_str_at _ _ _ _ Hs Ht).
    apply (notify_after_save _ _ _ _ Hs Hsafe).
  - unfold __iter__, __len__, __bool__, __contains__.
    rewrite !(bind_ret_at _ _ _ _ _ (load_at _ _ _ Hs')).
    cbn [_recipients set_recipients].
    rewrite length_app, Nat.add_comm. simpl length.
    assert (Hh' : hashable_addresses (_recipients c ++ [r]) = true).
    { unfold hashable_addresses in Hh |- *. rewrite forallb_app.
      apply andb_true_intro. split; [exact Hh|reflexivity]. }
    rewrite (address_set_hashable _ Hh').
    repeat split. unfold ret. do 2 f_equal.
    apply existsb_is_address. exists r. split; [|reflexivity].
    apply in_or_app. right. now left.
Qed.

Lemma add_string_then_read_witness :
  two_store !! 2%positive = Some (Collection two_collection)
  /\ notifier_safe two_collection two_store = true
  /\ hashable_addresses (_recipients two_collection) = true
  /\ truthy (VStr "c@x.com") = true
  /\ exists h',
       add 2 (VStr "c@x.com") two_store = (Ret tt, h')
       /\ __len__ 2 h' = (Ret 3, h')
       /\ __contains__ 2 "c@x.com" h' = (Ret true, h').
Proof.
  assert (Hs : two_store !! 2%positive = Some (Collection two_collection))
    by reflexivity.
  assert (Hsafe : notifier_safe two_collection two_store = true) by reflexivity.
  assert (Hh : hashable_addresses (_recipients two_collection) = true)
    by reflexivity.
  assert (Ht : truthy (VStr "c@x.com") = true) by reflexivity.
  split; [exact Hs|]. split; [exact Hsafe|]. split; [exact Hh|].
  split; [exact Ht|].
  destruct (add_string_then_read _ _ _ "c@x.com" Hs Hsafe Hh Ht)
    as (h' & Hadd & _ & Hlen & _ & Hin).
  exists h'. split; [exact Hadd|]. split; [exact Hlen|exact Hin].
Defined.

(** ** Editing a hydrated recipient *)

Lemma from_cloud_truthy (cc : string -> string) (owner : loc) (x : pyval)
    (field : option string) (r : Recipient) :
  truthy x = true ->
  _recipient_from_cloud cc owner x field = Ret r ->
  _parent r = Some owner /\ _field r = field.
Proof.
  unfold _recipient_from_cloud. intros ->.
  destruct (py_get x _ _) as [e|]; [|discriminate].
  destruct (py_get e _ _) as [a|]; [|discriminate].
  destruct (py_get e _ _) as [n|]; [|discriminate].
  now intros [= <-].
Qed.

Lemma from_cloud_falsy (cc : string -> string) (owner : loc) (x : pyval)
    (field : option string) :
  truthy x = false ->
  _recipient_from_cloud cc owner x field
  = Ret (mkRecipient (VStr "") (VStr "") None None).
Proof. unfold _recipient_from_cloud. now intros ->. Qed.

(** X14: the setters of a recipient hydrated from a truthy cloud item put
    the field name in the dirty-field set of the resource that hydrated it;
    a recipient hydrated from a falsy item has no parent and no field, and
    its setters leave the store as it is. *)
Theorem hydrated_recipient_setters (cc : string -> string) (owner : loc)
    (x value : pyval) (f : string) (ds : gset string) (r : Recipient)
    (h : store) :
  _recipient_from_cloud cc owner x (Some f) = Ret r ->
  String.eqb f "" = false ->
  h !! owner = Some (Resource (Some ds)) ->
  RecipientObject.address_setter value r h
  = (Ret tt,
     (mkRecipient value (_name r) (_parent r) (_field r),
      if truthy x then <[owner := Resource (Some ({[ f ]} ∪ ds))]> h else h))
  /\ RecipientObject.name_setter value r h
     = (Ret tt,
        (mkRecipient (_address r) value (_parent r) (_field r),
         if truthy x then <[owner := Resource (Some ({[ f ]} ∪ ds))]> h else h)).
Proof.
  intros Hr Hf Ho.
  unfold RecipientObject.address_setter, RecipientObject.name_setter,
    RecipientObject._track_changes.
  cbn [_field _parent].
  destruct (truthy x) eqn:Ht.
  - destruct (from_cloud_truthy _ _ _ _ _ Ht Hr) as [-> ->].
    rewrite Hf. unfold track_changes_add, getattr_track_changes.
    now rewrite Ho.
  - rewrite (from_cloud_falsy _ _ _ _ Ht) in Hr. injection Hr as <-.
    now split.
Qed.

Lemma hydrated_recipient_setters_witness :
  _recipient_from_cloud id 1 (canonical id (VStr "a@x.com") (VStr "Ann"))
    (Some "to")
  = Ret (mkRecipient (VStr "a@x.com") (VStr "Ann") (Some 1%positive) (Some "to"))
  /\ String.eqb "to" "" = false
  /\ owner_store !! 1%positive = Some (Resource (Some ∅))
  /\ RecipientObject.name_setter (VStr "Anna")
       (mkRecipient (VStr "a@x.com") (VStr "Ann") (Some 1%positive) (Some "to"))
       owner_store
     = (Ret tt,
        (mkRecipient (VStr "a@x.com") (VStr "Anna") (Some 1%positive) (Some "to"),
         <[1%positive := Resource (Some ({[ "to" ]} ∪ ∅))]> owner_store)).
Proof.
  assert (Hr : _recipient_from_cloud id 1
                 (canonical id (VStr "a@x.com") (VStr "Ann")) (Some "to")
               = Ret (mkRecipient (VStr "a@x.com") (VStr "Ann")
                        (Some 1%positive) (Some "to")))
    by reflexivity.
  assert (Hf : String.eqb "to" "" = false) by reflexivity.
  assert (Ho : owner_store !! 1%positive = Some (Resource (Some ∅)))
    by reflexivity.
  split; [exact Hr|]. split; [exact Hf|]. split; [exact Ho|].
  exact (proj2 (hydrated_recipient_setters id 1 _ (VStr "Anna") "to" ∅ _ _
                  Hr Hf Ho)).
Defined.

(** ** Bulk hydration *)

Lemma from_cloud_returns (cc : string -> string) (owner : loc)
    (field : option string) (v : pyval) :
  hydratable cc v = true ->
  exists r, _recipient_from_cloud cc owner v field = Ret r.
Proof.
  unfold hydratable, _recipient_from_cloud. intros H.
  destruct (truthy v); [|now eexists].
  simpl in H. destruct v as [| | | | | |d|]; try discriminate.
  simpl. destruct (d !! cc "emailAddress") as [e|]; simpl; [|now eexists].
  destruct e; try discriminate. now eexists.
Qed.

Lemma recipients_data_returns (cc : string -> string) (owner : loc)
    (field : option string) (raw : list pyval) :
  forallb (hydratable cc) raw = true ->
  exists rs,
    recipients_data cc owner raw field = Ret (map VRecipient rs)
    /\ Forall2 (fun x r => _recipient_from_cloud cc owner x field = Ret r)
         raw rs.
Proof.
  induction raw as [|x raw IH]; intros H.
  - exists []. split; [reflexivity|constructor].
  - simpl in H. apply andb_prop in H as [Hx Hraw].
    destruct (from_cloud_returns cc owner field x Hx) as [r Hr].
    destruct (IH Hraw) as (rs & Hrs & Hall).
    exists (r :: rs). simpl. rewrite Hr, Hrs. split; [reflexivity|].
    now constructor.
Qed.

Lemma recipients_data_raises (cc : string -> string) (owner : loc)
    (field : option string) (raw : list pyval) :
  forallb (hydratable cc) raw = false ->
  recipients_data cc owner raw field
  = Raise (AttributeError "object has no attribute 'get'").
Proof.
  induction raw as [|x raw IH]; intros H; [discriminate|].
  simpl in H |- *. destruct (hydratable cc x) eqn:Hx.
  - destruct (from_cloud_returns cc owner field x Hx) as [r ->].
    now rewrite (IH H).
  - now rewrite (from_cloud_raises_otherwise _ _ _ _ Hx).
Qed.

Lemma well_shaped_recipients (rs : list Recipient) :
  well_shaped (VList (map VRecipient rs)) = true.
Proof.
  assert (H : forallb well_shaped (map VRecipient rs) = true).
  { induction rs as [|r rs IH]; [reflexivity|]. simpl.
    rewrite orb_true_r. exact IH. }
  destruct rs as [|r rs]; [reflexivity|].
  change (forallb well_shaped (map VRecipient (r :: rs)) = true). exact H.
Qed.

Lemma appended_recipients (parent : option loc) (field : option string)
    (rs : list Recipient) :
  appended parent field (VList (map VRecipient rs)) = List.filter addressed rs.
Proof.
  assert (H : flat_map (appended parent field) (map VRecipient rs)
              = List.filter addressed rs).
  { induction rs as [|r rs IH]; [reflexivity|]. simpl. unfold addressed at 1.
    destruct (truthy (_address r)); simpl; now rewrite IH. }
  destruct rs as [|r rs]; [reflexivity|].
  change (flat_map (appended parent field) (map VRecipient (r :: rs))
          = List.filter addressed (r :: rs)).
  exact H.
Qed.

(** X15: when every raw item is falsy or a dict whose envelope, if any, is a
    dict, [_recipients_from_cloud] returns a new collection, owned by the
    hydrating resource under the given field, that holds the hydrated
    recipients in the order of the raw items, those without an address left
    out; nothing else in the store changes. *)
Theorem bulk_hydration_keeps_addressed (cc : string -> string) (owner : loc)
    (raw : list pyval) (field : option string) (h : store) :
  forallb (hydratable cc) raw = true ->
  exists rs,
    Forall2 (fun x r => _recipient_from_cloud cc owner x field = Ret r) raw rs
    /\ _recipients_from_cloud cc owner raw field h
       = (Ret (fresh (dom h)),
          <[fresh (dom h) :=
              Collection {| coll_parent := Some owner; coll_field := field;
                            _recipients := List.filter addressed rs;
                            untrack := false |}]> h).
Proof.
  intros H.
  destruct (recipients_data_returns cc owner field raw H) as (rs & Hrs & Hall).
  exists rs. split; [exact Hall|].
  unfold _recipients_from_cloud. rewrite Hrs.
  rewrite (init_well_shaped _ _ _ _ (well_shaped_recipients rs)).
  now rewrite appended_recipients.
Qed.

Lemma bulk_hydration_keeps_addressed_witness :
  forallb (hydratable id)
    [canonical id (VStr "a@x.com") (VStr "Ann"); VNone;
     canonical_nameless id (VStr "")] = true
  /\ exists rs,
       Forall2 (fun x r => _recipient_from_cloud id 1 x (Some "to") = Ret r)
         [canonical id (VStr "a@x.com") (VStr "Ann"); VNone;
          canonical_nameless id (VStr "")] rs
       /\ _recipients_from_cloud id 1
            [canonical id (VStr "a@x.com") (VStr "Ann"); VNone;
             canonical_nameless id (VStr "")] (Some "to") owner_store
          = (Ret (fresh (dom owner_store)),
             <[fresh (dom owner_store) :=
                 Collection {| coll_parent := Some 1%positive;
                               coll_field := Some "to";
                               _recipients := List.filter addressed rs;
                               untrack := false |}]> owner_store).
Proof.
  assert (H : forallb (hydratable id)
                [canonical id (VStr "a@x.com") (VStr "Ann"); VNone;
                 canonical_nameless id (VStr "")] = true) by reflexivity.
  split; [exact H|].
  exact (bulk_hydration_keeps_addressed id 1 _ (Some "to") owner_store H).
Defined.

(** X16: when some raw item is neither, [_recipients_from_cloud] raises an
    [AttributeError] before any collection is built: the store is left as it
    was. *)
Theorem bulk_hydration_raises_early (cc : string -> string) (owner : loc)
    (raw : list pyval) (field : option string) (h : store) :
  forallb (hydratable cc) raw = false ->
  _recipients_from_cloud cc owner raw field h
  = (Raise (AttributeError "object has no attribute 'get'"), h).
Proof.
  intros H. unfold _recipients_from_cloud.
  now rewrite (recipients_data_raises _ _ _ _ H).
Qed.

Lemma bulk_hydration_raises_early_witness :
  forallb (hydratable id)
    [canonical id (VStr "a@x.com") (VStr "Ann"); VStr "b@x.com"] = false
  /\ _recipients_from_cloud id 1
       [canonical id (VStr "a@x.com") (VStr "Ann"); VStr "b@x.com"]
       (Some "to") owner_store
     = (Raise (AttributeError "object has no attribute 'get'"), owner_store).
Proof.
  split; [reflexivity|]. apply bulk_hydration_raises_early. reflexivity.
Defined.

Lemma hydrate_canonical (cc : string -> string) (owner : loc)
    (field : option string) (a n : pyval) :
  truthy a = true -> truthy n = true ->
  exists r,
    _recipient_from_cloud cc owner (canonical cc a n) field = Ret r
    /\ addressed r = true
    /\ _recipient_to_cloud cc (Some r) = canonical cc a n.
Proof.
  intros Ha Hn. unfold _recipient_from_cloud, canonical.
  rewrite truthy_singleton_dict. simpl py_get.
  rewrite lookup_singleton_eq. simpl.
  destruct (decide (cc "address" = cc "name")) as [Heq|Hne].
  - rewrite <- Heq, !lookup_insert_eq. simpl.
    eexists. split; [reflexivity|].
    unfold addressed, _recipient_to_cloud, RecipientClass.__bool__,
      RecipientClass.address, RecipientClass.name, RecipientClass.__init__,
      py_or.
    simpl. repeat (rewrite ?Hn; simpl). split; [reflexivity|].
    now rewrite !insert_singleton_eq.
  - rewrite lookup_insert_ne, lookup_insert_eq, !lookup_singleton_eq by congruence.
    simpl. eexists. split; [reflexivity|].
    unfold addressed, _recipient_to_cloud, RecipientClass.__bool__,
      RecipientClass.address, RecipientClass.name, RecipientClass.__init__,
      py_or.
    simpl. now repeat (rewrite ?Ha, ?Hn; simpl).
Qed.

Lemma hydrate_all_canonical (cc : string -> string) (owner : loc)
    (field : option string) (items : list (pyval * pyval)) :
  forallb (fun an => truthy (fst an) && truthy (snd an)) items = true ->
  exists rs,
    recipients_data cc owner
      (map (fun an => canonical cc (fst an) (snd an)) items) field
    = Ret (map VRecipient rs)
    /\ forallb addressed rs = true
    /\ map (fun r => _recipient_to_cloud cc (Some r)) rs
       = map (fun an => canonical cc (fst an) (snd an)) items.
Proof.
  induction items as [|[a n] items IH]; intros H.
  - now exists [].
  - simpl in H. apply andb_prop in H as [Han Hrest].
    apply andb_prop in Han as [Ha Hn].
    destruct (hydrate_canonical cc owner field a n Ha Hn) as (r & Hr & Hadd & Hback).
    destruct (IH Hrest) as (rs & Hrs & Hall & Hmap).
    exists (r :: rs). cbn [map fst snd recipients_data].
    rewrite Hr, Hrs. split; [reflexivity|].
    split; [simpl; now rewrite Hadd, Hall|]. now rewrite Hback, Hmap.
Qed.

(** X17: hydrating a list of canonical items
    [{emailAddress: {address: a, name: n}}] with non-empty addresses and
    names gives a collection of as many recipients, and converting each of
    them back with [_recipient_to_cloud] gives the list of items again, in
    the same order. *)
Theorem bulk_round_trip (cc : string -> string) (owner : loc)
    (items : list (pyval * pyval)) (field : option string) (h : store) :
  forallb (fun an => truthy (fst an) && truthy (snd an)) items = true ->
  exists h' rs,
    _recipients_from_cloud cc owner
      (map (fun an => canonical cc (fst an) (snd an)) items) field h
    = (Ret (fresh (dom h)), h')
    /\ recipients_of h' (fresh (dom h)) = Some rs
    /\ length rs = length items
    /\ map (fun r => _recipient_to_cloud cc (Some r)) rs
       = map (fun an => canonical cc (fst an) (snd an)) items.
Proof.
  intros H.
  destruct (hydrate_all_canonical cc owner field items H)
    as (rs & Hrs & Hall & Hmap).
  eexists _, rs. split; [|split; [|split]].
  - unfold _recipients_from_cloud. rewrite Hrs.
    apply (init_well_shaped _ _ _ _ (well_shaped_recipients rs)).
  - unfold recipients_of. rewrite lookup_insert_eq. cbn [_recipients].
    rewrite appended_recipients. f_equal. now apply forallb_filter_id.
  - apply (f_equal (@length pyval)) in Hmap. now rewrite !length_map in Hmap.
  - exact Hmap.
Qed.

Lemma bulk_round_trip_witness :
  forallb (fun an => truthy (fst an) && truthy (snd an))
    [(VStr "a@x.com", VStr "Ann"); (VStr "b@x.com", VStr "Bob")] = true
  /\ exists h' rs,
       _recipients_from_cloud id 1
         (map (fun an => canonical id (fst an) (snd an))
            [(VStr "a@x.com", VStr "Ann"); (VStr "b@x.com", VStr "Bob")])
         (Some "to") owner_store
       = (Ret (fresh (dom owner_store)), h')
       /\ recipients_of h' (fresh (dom owner_store)) = Some rs
       /\ length rs = 2
       /\ map (fun r => _recipient_to_cloud id (Some r)) rs
          = map (fun an => canonical id (fst an) (snd an))
              [(VStr "a@x.com", VStr "Ann"); (VStr "b@x.com", VStr "Bob")].
Proof.
  assert (H : forallb (fun an => truthy (fst an) && truthy (snd an))
                [(VStr "a@x.com", VStr "Ann"); (VStr "b@x.com", VStr "Bob")]
              = true) by reflexivity.
  split; [exact H|].
  exact (bulk_round_trip id 1 _ (Some "to") owner_store H).
Defined.
